(** * Verification of the retry policy and the background worker of
    Huggingface_Client (src/hf_backend/retry.py, src/ui/workers.py and the
    backend modules that call them). *)

From Stdlib Require Import ZArith QArith Lqa List Sorted Permutation String Bool Lia.
From Stdlib Require OrderedTypeEx.
Import ListNotations.
Open Scope string_scope.

(** ** Exceptions

    The exception classes the code distinguishes.  [HfHubHTTPError] carries
    its optional [response]; [Some s] is a response whose [status_code] is
    [s].  [RepositoryNotFoundError], which [get_repo_info] catches, is a
    subclass of it; other subclasses are not told apart.  The httpx classes are the four of [_TRANSPORT_ERRORS].  The
    domain errors of the backend modules are [RuntimeError] subclasses. *)
Inductive exn_class :=
  | ConnectError
  | TimeoutException
  | NetworkError
  | ProtocolError
  | HfHubHTTPError (response : option Z)
  | RepositoryNotFoundError (response : option Z)
  | ValueError
  | TypeError
  | HFAuthError
  | HFRepoError
  | HFFileError
  | HFCollectionError
  | HFModelCardError
  | OtherException (cls : string)          (* any other Exception subclass *)
  | OtherBaseException (cls : string).     (* KeyboardInterrupt, SystemExit *)

(** An exception object: its identity, its class and its [str()]. *)
Record exn := mkExn { exn_id : nat; exn_cls : exn_class; exn_msg : string }.

(** [isinstance(err, Exception)]. *)
Definition is_Exception (k : exn_class) : bool :=
  match k with OtherBaseException _ => false | _ => true end.

(** [isinstance(err, _TRANSPORT_ERRORS)]. *)
Definition is_transport_error (k : exn_class) : bool :=
  match k with
  | ConnectError | TimeoutException | NetworkError | ProtocolError => true
  | _ => false
  end.

(** retry.py, [_is_retryable]. *)
Definition _is_retryable (err : exn) : bool :=
  if is_transport_error (exn_cls err) then true
  else match exn_cls err with
       | HfHubHTTPError (Some status)
       | RepositoryNotFoundError (Some status) => (500 <=? status)%Z
       | _ => false
       end.

(** The classes of the [except (HfHubHTTPError, *_TRANSPORT_ERRORS)] clause
    of [with_retry]. *)
Definition caught_by_with_retry (err : exn) : bool :=
  match exn_cls err with
  | HfHubHTTPError _ | RepositoryNotFoundError _ => true
  | k => is_transport_error k
  end.

(** ** Operations

    One invocation of a Python callable returns a value or raises.  A
    (possibly stateful) operation is given by what its [i]-th invocation
    does, counting from 0.  [with_retry] reads [fn.__name__] when it logs,
    so the operations it receives are named functions or bound methods. *)
Inductive outcome (A : Type) := Ret (v : A) | Exc (e : exn).
Arguments Ret {A} v.
Arguments Exc {A} e.

Definition operation (A : Type) := nat -> outcome A.

(** What a call of [with_retry] does, in order: invocations of [fn] and
    [time.sleep] calls. *)
Inductive event := Invoke | Sleep (wait : Q).

Definition invocations (tr : list event) : nat :=
  List.length (filter (fun ev => match ev with Invoke => true | _ => false end) tr).

Fixpoint sleeps (tr : list event) : list Q :=
  match tr with
  | [] => []
  | Sleep w :: tr' => w :: sleeps tr'
  | Invoke :: tr' => sleeps tr'
  end.

(** [raise None]: Python raises [TypeError("exceptions must derive from
    BaseException")] in its place. *)
Definition raise_none_error : exn :=
  mkExn 0 TypeError "exceptions must derive from BaseException".

(** A Python [float] (or [int]) delay: a finite value, taken exactly, or
    one of the IEEE special values.  Products are taken exactly: the model
    abstracts the rounding of [delay * (attempt + 1)] for float delays
    (int delays multiply exactly in Python too). *)
Inductive pyfloat := PFin (q : Q) | PInf | PNegInf | PNaN.
Coercion PFin : Q >-> pyfloat.

(** [delay * (attempt + 1)] for a positive integer [k = attempt + 1]:
    infinities and NaN stay what they are. *)
Definition wait_value (delay : pyfloat) (k : Z) : pyfloat :=
  match delay with
  | PFin q => PFin (q * inject_Z k)
  | d => d
  end.

(** What [time.sleep(w)] does: sleeps [w] seconds, or raises. *)
Inductive sleep_result := Slept (secs : Q) | SleepRaised (e : exn).

(** [time.sleep] converts its argument to a signed 64-bit count of
    nanoseconds ([_PyTime_FromSecondsObject]): it accepts values in
    [-2^63 ns, 2^63 ns), i.e. about 9.22e9 seconds either way. *)
Definition sleep_limit : Q := 9223372036854775808 # 1000000000.

Definition overflow_error : exn :=
  mkExn 0 (OtherException "OverflowError")
    "timestamp too large to convert to C _PyTime_t".

Definition nan_sleep_error : exn :=
  mkExn 0 ValueError "Invalid value NaN (not a number)".

Definition negative_sleep_error : exn :=
  mkExn 0 ValueError "sleep length must be non-negative".

(** [time.sleep(w)]: NaN raises [ValueError]; an argument outside the
    nanosecond range (infinities included) raises [OverflowError]; a
    negative one raises [ValueError]; any other sleeps [w] seconds. *)
Definition time_sleep (w : pyfloat) : sleep_result :=
  match w with
  | PNaN => SleepRaised nan_sleep_error
  | PInf | PNegInf => SleepRaised overflow_error
  | PFin q =>
      if Qle_bool sleep_limit q || negb (Qle_bool (- sleep_limit) q)
      then SleepRaised overflow_error
      else if Qle_bool 0 q then Slept q else SleepRaised negative_sleep_error
  end.

(** retry.py, [with_retry]: the [for attempt in range(retries)] loop, with
    [fuel] the iterations left and [last_err] the variable of the same
    name.  [raise last_err] after the loop raises [last_err], or a
    [TypeError] when it is still [None].  An exception of [time.sleep]
    escapes the [except] clause that called it. *)
Fixpoint retry_loop {A} (fn : operation A) (retries : Z) (delay : pyfloat)
    (attempt : nat) (fuel : nat) (last_err : option exn)
    : outcome A * list event :=
  match fuel with
  | O =>
      match last_err with
      | Some e => (Exc e, [])
      | None => (Exc raise_none_error, [])
      end
  | S fuel' =>
      match fn attempt with
      | Ret v => (Ret v, [Invoke])
      | Exc e =>
          if negb (caught_by_with_retry e) then (Exc e, [Invoke])
          else if negb (_is_retryable e) then (Exc e, [Invoke])
          else if (Z.of_nat attempt <? retries - 1)%Z then
            match time_sleep (wait_value delay (Z.of_nat attempt + 1)) with
            | Slept wait =>
                let (r, tr) := retry_loop fn retries delay (S attempt) fuel' (Some e) in
                (r, Invoke :: Sleep wait :: tr)
            | SleepRaised e' => (Exc e', [Invoke])
            end
          else
            let (r, tr) := retry_loop fn retries delay (S attempt) fuel' (Some e) in
            (r, Invoke :: tr)
      end
  end.

Definition with_retry {A} (fn : operation A) (retries : Z) (delay : pyfloat)
    : outcome A * list event :=
  retry_loop fn retries delay 0 (Z.to_nat retries) None.

(** Default arguments [retries=3, delay=1.0]. *)
Definition with_retry_default {A} (fn : operation A) : outcome A * list event :=
  with_retry fn 3 1.

(** Sample exceptions and operations. *)
Definition http_error (id : nat) (status : Z) : exn :=
  mkExn id (HfHubHTTPError (Some status)) "HTTP error".

Definition always_raise {A} (e : exn) : operation A := fun _ => Exc e.

(** Raises a fresh exception at each invocation: identity [i]. *)
Definition always_raise_fresh {A} (k : exn_class) : operation A :=
  fun i => Exc (mkExn i k "failure").

(** ** The background worker (src/ui/workers.py, [ApiWorker])

    [run] calls [self._fn] once, then reads [self._cancelled] once and emits
    on [finished] or [error] when the flag is unset.  [cancel] runs on the
    interactive thread and may set the flag at any moment, so a worker is a
    small state machine whose steps interleave with [cancel]. *)
Section Worker.
Variable A : Type.

Inductive signal := SigFinished (v : A) | SigError (msg : string).

(** Where [run] is: not started, [self._fn(...)] has returned or raised,
    or [run] has ended. *)
Inductive wpc := WStart | WReturned (o : outcome A) | WDone.

Record wstate := mkW {
  w_pc : wpc;
  w_cancelled : bool;          (* self._cancelled *)
  w_signals : list signal;     (* emitted outcome signals, in order *)
  w_escaped : option exn       (* exception propagating out of run *)
}.

Definition w_init : wstate := mkW WStart false [] None.

(** The body of [run] after [self._fn] returned or raised, reading the
    flag as [cancelled]: the [if not self._cancelled] tests, and the
    [except Exception] clause that emits [str(e)].  An exception that is
    not an [Exception] is not caught and leaves [run]. *)
Definition run_rest (o : outcome A) (cancelled : bool) : list signal * option exn :=
  match o with
  | Ret v => if negb cancelled then ([SigFinished v], None) else ([], None)
  | Exc e =>
      if is_Exception (exn_cls e) then
        if negb cancelled then ([SigError (exn_msg e)], None) else ([], None)
      else ([], Some e)
  end.

(** One step of the worker thread, or a call of [cancel]. *)
Inductive wstep (fn : operation A) : wstate -> wstate -> Prop :=
  | step_call : forall c sg esc,
      wstep fn (mkW WStart c sg esc) (mkW (WReturned (fn O)) c sg esc)
  | step_check : forall o c sg esc,
      wstep fn (mkW (WReturned o) c sg esc)
               (mkW WDone c (sg ++ fst (run_rest o c)) (snd (run_rest o c)))
  | step_cancel : forall pc c sg esc,
      wstep fn (mkW pc c sg esc) (mkW pc true sg esc).

Inductive wsteps (fn : operation A) : wstate -> wstate -> Prop :=
  | wsteps_refl : forall s, wsteps fn s s
  | wsteps_step : forall s1 s2 s3,
      wstep fn s1 s2 -> wsteps fn s2 s3 -> wsteps fn s1 s3.

Definition reachable (fn : operation A) (s : wstate) : Prop := wsteps fn w_init s.

End Worker.

Arguments SigFinished {A} v.
Arguments SigError {A} msg.
Arguments WStart {A}.
Arguments WReturned {A} o.
Arguments WDone {A}.
Arguments mkW {A} w_pc w_cancelled w_signals w_escaped.
Arguments w_pc {A} w.
Arguments w_cancelled {A} w.
Arguments w_signals {A} w.
Arguments w_escaped {A} w.
Arguments w_init {A}.
Arguments run_rest {A} o cancelled.
Arguments wstep {A} fn _ _.
Arguments wsteps {A} fn _ _.
Arguments reachable {A} fn s.

(** Invariants of the worker. *)
Definition outcome_inv {A} (s : wstate A) : Prop :=
  (w_pc s <> WDone -> w_signals s = []) /\ (List.length (w_signals s) <= 1)%nat.

Definition silenced {A} (s : wstate A) : Prop := w_cancelled s = true /\ w_signals s = [].

(** What an uncancelled worker has done once [run] has ended. *)
Definition uncancelled_inv {A} (fn : operation A) (s : wstate A) : Prop :=
  match w_pc s with
  | WStart => w_signals s = [] /\ w_escaped s = None
  | WReturned o => o = fn O /\ w_signals s = [] /\ w_escaped s = None
  | WDone => w_cancelled s = false ->
             (w_signals s, w_escaped s) = run_rest (fn O) false
  end.

(** ** Backend modules

    Each function receives the behaviour of the [HfApi] method(s) it calls
    and returns its outcome together with the invocations of that method
    (and the sleeps of [with_retry] between them).  [get_api()] only builds
    or returns the shared [HfApi] handle and is not modelled. *)

(** [except Exception as e: raise Cls(f"{prefix}{e}") from e]. *)
Definition wrap_errors {B} (cls : exn_class) (prefix : string) (r : outcome B)
    : outcome B :=
  match r with
  | Ret v => Ret v
  | Exc e =>
      if is_Exception (exn_cls e)
      then Exc (mkExn (exn_id e) cls (prefix ++ exn_msg e))
      else Exc e
  end.

(** [result = with_retry(api.m, ...)] inside such a [try]. *)
Definition retried_call {B} (cls : exn_class) (prefix : string) (m : operation B)
    : outcome B * list event :=
  let (r, tr) := with_retry_default m in (wrap_errors cls prefix r, tr).

(** [result = api.m(...)] inside such a [try]: a single invocation. *)
Definition direct_call {B} (cls : exn_class) (prefix : string) (m : operation B)
    : outcome B * list event :=
  (wrap_errors cls prefix (m O), [Invoke]).

(** hf_repos.py *)
Definition create_repo (api_create_repo : operation string) :=
  retried_call HFRepoError "Failed to create repo: " api_create_repo.

Definition delete_repo (api_delete_repo : operation unit) :=
  retried_call HFRepoError "Failed to delete repo: " api_delete_repo.

Definition update_repo_visibility (api_update_repo_settings : operation unit) :=
  retried_call HFRepoError "Failed to update visibility: " api_update_repo_settings.

(** hf_files.py *)
Definition upload_file (api_upload_file : operation string) :=
  retried_call HFFileError "Failed to upload file: " api_upload_file.

Definition upload_folder (api_upload_folder : operation string) :=
  retried_call HFFileError "Failed to upload folder: " api_upload_folder.

Definition download_file (api_hf_hub_download : operation string) :=
  retried_call HFFileError "Failed to download file: " api_hf_hub_download.

Definition delete_file (api_delete_file : operation unit) :=
  retried_call HFFileError "Failed to delete file: " api_delete_file.

Definition delete_files (api_create_commit : operation unit) :=
  retried_call HFFileError "Failed to delete files: " api_create_commit.

Definition upload_file_content (api_upload_file : operation string) :=
  retried_call HFFileError "Failed to upload content: " api_upload_file.

(** [get_file_content]: download through [with_retry], then [open] and
    [read] the downloaded path ([read_path]); both inside the [try]. *)
Definition get_file_content (api_hf_hub_download : operation string)
    (read_path : string -> outcome string) : outcome string * list event :=
  let (r, tr) := with_retry_default api_hf_hub_download in
  match r with
  | Ret path => (wrap_errors HFFileError "Failed to get file content: " (read_path path), tr)
  | Exc e => (wrap_errors HFFileError "Failed to get file content: " (Exc e), tr)
  end.

(** hf_model_card.py, [get_readme]: [except HFFileError] returns [""]. *)
Definition get_readme (api_hf_hub_download : operation string)
    (read_path : string -> outcome string) : outcome string * list event :=
  let (r, tr) := get_file_content api_hf_hub_download read_path in
  match r with
  | Exc e => match exn_cls e with HFFileError => (Ret "", tr) | _ => (Exc e, tr) end
  | Ret s => (Ret s, tr)
  end.

(** hf_model_card.py, [push_readme]: [except HFFileError] re-raises as
    [HFModelCardError]. *)
Definition push_readme (api_upload_file : operation string) : outcome string * list event :=
  let (r, tr) := upload_file_content api_upload_file in
  match r with
  | Exc e =>
      match exn_cls e with
      | HFFileError => (Exc (mkExn (exn_id e) HFModelCardError ("Failed to push README: " ++ exn_msg e)), tr)
      | _ => (Exc e, tr)
      end
  | Ret s => (Ret s, tr)
  end.

(** hf_collections.py: every function calls its API method directly. *)
Definition list_my_collections {B} (api_list_collections : operation B) :=
  direct_call HFCollectionError "Failed to list collections: " api_list_collections.

Definition get_collection {B} (api_get_collection : operation B) :=
  direct_call HFCollectionError "Failed to get collection: " api_get_collection.

Definition create_collection {B} (api_create_collection : operation B) :=
  direct_call HFCollectionError "Failed to create collection: " api_create_collection.

Definition delete_collection (api_delete_collection : operation unit) :=
  direct_call HFCollectionError "Failed to delete collection: " api_delete_collection.

Definition update_collection_metadata (api_update_collection_metadata : operation unit) :=
  direct_call HFCollectionError "Failed to update collection: " api_update_collection_metadata.

(** [add_collection_item]: [api.add_collection_item], then
    [get_collection(c.slug)]; both inside the [try]. *)
Definition add_collection_item {B} (api_add_collection_item : operation string)
    (api_get_collection : operation B) : outcome B * list event :=
  match api_add_collection_item O with
  | Ret slug =>
      let (r, tr) := get_collection api_get_collection in
      (wrap_errors HFCollectionError "Failed to add item: " r, Invoke :: tr)
  | Exc e => (wrap_errors HFCollectionError "Failed to add item: " (Exc e), [Invoke])
  end.

Definition remove_collection_item {B} (api_delete_collection_item : operation string)
    (api_get_collection : operation B) : outcome B * list event :=
  match api_delete_collection_item O with
  | Ret slug =>
      let (r, tr) := get_collection api_get_collection in
      (wrap_errors HFCollectionError "Failed to remove item: " r, Invoke :: tr)
  | Exc e => (wrap_errors HFCollectionError "Failed to remove item: " (Exc e), [Invoke])
  end.

Fixpoint rev_string (s : string) : string :=
  match s with
  | EmptyString => EmptyString
  | String c s' => rev_string s' ++ String c EmptyString
  end.

(** hf_auth.py, [get_cached_token]: [t or ""], [except Exception] returns [""]. *)
Definition get_cached_token (hf_get_token : outcome (option string)) : outcome string :=
  match hf_get_token with
  | Ret (Some t) => Ret t
  | Ret None => Ret ""
  | Exc e => if is_Exception (exn_cls e) then Ret "" else Exc e
  end.


(** The trace of [with_retry] from [attempt] when each of the [fuel]
    remaining attempts fails retryably and [delay >= 0]. *)
Fixpoint fail_trace (delay : Q) (attempt fuel : nat) : list event :=
  match fuel with
  | O => []
  | S O => [Invoke]
  | S fuel' =>
      Invoke :: Sleep (delay * inject_Z (Z.of_nat attempt + 1))
             :: fail_trace delay (S attempt) fuel'
  end.

(** ** Model cards (src/hf_backend/hf_model_card.py)

    Strings are ASCII strings; characters are given by their codes where a
    Rocq string literal would be awkward. *)

Definition chr (n : nat) : Ascii.ascii := Ascii.ascii_of_nat n.
Definition str1 (c : Ascii.ascii) : string := String c EmptyString.

Definition nl := chr 10.          (* \n *)
Definition cr := chr 13.          (* \r *)
Definition dq := chr 34.          (* a double quote *)
Definition bs := chr 92.          (* a backslash *)

(** [_YAML_SPECIAL]: colon, braces, brackets, comma, double and single
    quote, bar, greater-than, ampersand, star, bang, hash, percent, at,
    backquote, line feed and carriage return. *)
Definition _YAML_SPECIAL : list Ascii.ascii :=
  map chr [58; 123; 125; 91; 93; 44; 34; 39; 124; 62; 38; 42; 33; 35; 37; 64; 96; 10; 13]%nat.

Definition _YAML_BOOLS : list string :=
  ["true"; "false"; "yes"; "no"; "null"; "on"; "off"].

Definition is_yaml_special (c : Ascii.ascii) : bool :=
  existsb (Ascii.eqb c) _YAML_SPECIAL.

(** [str.isspace] on ASCII characters: \t \n \v \f \r, the separators
    \x1c-\x1f and the space. *)
Definition py_isspace (c : Ascii.ascii) : bool :=
  match Ascii.nat_of_ascii c with
  | 9%nat | 10%nat | 11%nat | 12%nat | 13%nat
  | 28%nat | 29%nat | 30%nat | 31%nat | 32%nat => true
  | _ => false
  end.

Fixpoint py_lstrip (s : string) : string :=
  match s with
  | EmptyString => EmptyString
  | String c s' => if py_isspace c then py_lstrip s' else s
  end.

(** [str.strip()]. *)
Definition py_strip (s : string) : string :=
  rev_string (py_lstrip (rev_string (py_lstrip s))).

(** ** hf_auth.py: [login] and [whoami]

    [api.whoami()] returns the decoded JSON body of the whoami request. *)
#[warnings="-register-all"]
Inductive json :=
  | JNull
  | JBool (b : bool)
  | JInt (z : Z)
  | JFloat (q : Q)
  | JStr (s : string)
  | JList (l : list json)
  | JDict (kvs : list (string * json)).

Definition py_type_name (v : json) : string :=
  match v with
  | JNull => "NoneType"
  | JBool _ => "bool"
  | JInt _ => "int"
  | JFloat _ => "float"
  | JStr _ => "str"
  | JList _ => "list"
  | JDict _ => "dict"
  end.

(** Binding lookup in a decoded object; a key bound twice keeps its last
    value, as [json.loads] does. *)
Definition dict_get (kvs : list (string * json)) (k : string) (default : json) : json :=
  fold_left (fun acc kv => if String.eqb (fst kv) k then snd kv else acc) kvs default.

(** [v.get(k, default)]: only a [dict] has [get]. *)
Definition py_get (v : json) (k : string) (default : json) : outcome json :=
  match v with
  | JDict kvs => Ret (dict_get kvs k default)
  | _ => Exc (mkExn 0 (OtherException "AttributeError")
                ("'" ++ py_type_name v ++ "' object has no attribute 'get'"))
  end.

(** [for o in v]: a list yields its items, a string its characters, a
    dict its keys; the other values are not iterable. *)
Definition py_iter (v : json) : outcome (list json) :=
  match v with
  | JList l => Ret l
  | JStr s => Ret (map (fun c => JStr (String c EmptyString)) (list_ascii_of_string s))
  | JDict kvs => Ret (map (fun kv => JStr (fst kv)) kvs)
  | _ => Exc (mkExn 0 TypeError ("'" ++ py_type_name v ++ "' object is not iterable"))
  end.

Definition obind {X Y} (o : outcome X) (k : X -> outcome Y) : outcome Y :=
  match o with Ret x => k x | Exc e => Exc e end.

(** A list comprehension: [f] on each element in order, the first
    exception escaping. *)
Fixpoint py_map {X Y} (f : X -> outcome Y) (l : list X) : outcome (list Y) :=
  match l with
  | [] => Ret []
  | x :: l' => obind (f x) (fun y => obind (py_map f l') (fun ys => Ret (y :: ys)))
  end.

Record UserInfo := mkUserInfo {
  username : json;
  fullname : json;
  email : json;
  avatar_url : json;
  orgs : list json
}.

(** The [UserInfo] built from [info] by [login] and [whoami], in the
    source's order of evaluation: [orgs] first, then the constructor's
    arguments. *)
Definition user_info_of (info : json) : outcome UserInfo :=
  obind (py_get info "orgs" (JList [])) (fun orgs_val =>
  obind (py_iter orgs_val) (fun items =>
  obind (py_map (fun o => py_get o "name" (JStr "")) items) (fun orgs =>
  obind (py_get info "name" (JStr "")) (fun username =>
  obind (py_get info "fullname" (JStr "")) (fun fullname =>
  obind (py_get info "email" (JStr "")) (fun email =>
  obind (py_get info "avatarUrl" (JStr "")) (fun avatar_url =>
  Ret (mkUserInfo username fullname email avatar_url orgs)))))))).

(** hf_auth.py, [whoami]: [api.whoami()] and the construction of the
    [UserInfo] inside [try ... except Exception: return None]. *)
Definition whoami (api_whoami : operation json) : outcome (option UserInfo) * list event :=
  match obind (api_whoami O) user_info_of with
  | Ret u => (Ret (Some u), [Invoke])
  | Exc e => if is_Exception (exn_cls e) then (Ret None, [Invoke]) else (Exc e, [Invoke])
  end.

(** hf_auth.py, [login]: empty token check, then [api.whoami()] with
    [except Exception] re-raised as [HFAuthError]; the [UserInfo] is built
    after the [try], so its exceptions escape unwrapped. *)
Definition login (token : string) (api_whoami : operation json) : outcome UserInfo * list event :=
  let token := py_strip token in
  if String.eqb token "" then (Exc (mkExn 0 HFAuthError "Token cannot be empty."), [])
  else
    let (r, tr) := direct_call HFAuthError "Login failed: " api_whoami in
    (obind r user_info_of, tr).

(** [str.lower()] on ASCII characters. *)
Definition py_lower_char (c : Ascii.ascii) : Ascii.ascii :=
  let n := Ascii.nat_of_ascii c in
  if (65 <=? n)%nat && (n <=? 90)%nat then chr (n + 32) else c.

Fixpoint py_lower (s : string) : string :=
  match s with
  | EmptyString => EmptyString
  | String c s' => String (py_lower_char c) (py_lower s')
  end.

(** [s.replace(old, new)] for a one-character [old]. *)
Fixpoint py_replace1 (old : Ascii.ascii) (new : string) (s : string) : string :=
  match s with
  | EmptyString => EmptyString
  | String c s' =>
      (if Ascii.eqb c old then new else str1 c) ++ py_replace1 old new s'
  end.

(** The [escaped] string of [_yaml_quote]: the four [replace] calls in
    order. *)
Definition _yaml_escape (value : string) : string :=
  let escaped := py_replace1 dq (str1 bs ++ str1 dq)
                   (py_replace1 bs (str1 bs ++ str1 bs) value) in
  py_replace1 cr (str1 bs ++ "r") (py_replace1 nl (str1 bs ++ "n") escaped).

(** Whether [_yaml_quote] quotes a non-empty value. *)
Definition needs_quotes (value : string) : bool :=
  existsb is_yaml_special (list_ascii_of_string value)
  || negb (String.eqb (py_strip value) value)
  || existsb (String.eqb (py_lower value)) _YAML_BOOLS.

(** [_yaml_quote]. *)
Definition _yaml_quote (value : string) : string :=
  if String.eqb value "" then str1 dq ++ str1 dq
  else if needs_quotes value then str1 dq ++ _yaml_escape value ++ str1 dq
  else value.

(** What the four [replace] calls make of one character. *)
Definition escape_char (c : Ascii.ascii) : string :=
  if Ascii.eqb c bs then str1 bs ++ str1 bs
  else if Ascii.eqb c dq then str1 bs ++ str1 dq
  else if Ascii.eqb c nl then str1 bs ++ "n"
  else if Ascii.eqb c cr then str1 bs ++ "r"
  else str1 c.

(** Decoding of the body of a YAML double-quoted scalar (YAML 1.2,
    section 7.3.1) for the escapes backslash-backslash, backslash-quote,
    backslash-n and backslash-r; an unescaped
    double quote would end the scalar and a raw line break would be folded,
    so both are refused.  It is the reader of [_yaml_quote]'s output. *)
Fixpoint yaml_dq_unescape (s : string) : option string :=
  match s with
  | EmptyString => Some EmptyString
  | String c s' =>
      if Ascii.eqb c bs then
        match s' with
        | EmptyString => None
        | String d s'' =>
            let decoded :=
              if Ascii.eqb d bs then Some bs
              else if Ascii.eqb d dq then Some dq
              else if Ascii.eqb d (chr 110) then Some nl
              else if Ascii.eqb d (chr 114) then Some cr
              else None in
            match decoded, yaml_dq_unescape s'' with
            | Some x, Some rest => Some (String x rest)
            | _, _ => None
            end
        end
      else if Ascii.eqb c dq || Ascii.eqb c nl || Ascii.eqb c cr then None
      else option_map (String c) (yaml_dq_unescape s')
  end.

Definition has_char (c : Ascii.ascii) (s : string) : bool :=
  existsb (Ascii.eqb c) (list_ascii_of_string s).

(** A value of [extra_metadata]: a list (each item passed to [str]) or any
    other value (passed to [str]); dict order is insertion order. *)
Inductive meta_value := MList (items : list string) | MScalar (v : string).

Definition field_lines (name value : string) : list string :=
  if String.eqb value "" then [] else [name ++ ": " ++ _yaml_quote value].

Definition list_lines (header : string) (xs : list string) : list string :=
  match xs with
  | [] => []
  | _ => (header ++ ":") :: map (fun t => "  - " ++ _yaml_quote t) xs
  end.

Definition extra_lines (extra : list (string * meta_value)) : list string :=
  flat_map (fun kv =>
    match snd kv with
    | MList items => (fst kv ++ ":") :: map (fun i => "  - " ++ _yaml_quote i) items
    | MScalar v => [fst kv ++ ": " ++ _yaml_quote v]
    end) extra.

(** The [lines] of [generate_model_card_yaml]; [None] and empty lists or
    dicts are both [[]]. *)
Definition model_card_yaml_lines (language license library_name pipeline_tag : string)
    (tags : list string) (base_model : string) (datasets : list string)
    (extra_metadata : list (string * meta_value)) : list string :=
  ["---"]
  ++ field_lines "language" language
  ++ field_lines "license" license
  ++ field_lines "library_name" library_name
  ++ field_lines "pipeline_tag" pipeline_tag
  ++ field_lines "base_model" base_model
  ++ list_lines "tags" tags
  ++ list_lines "datasets" datasets
  ++ extra_lines extra_metadata
  ++ ["---"].

(** [generate_model_card_yaml]: [ "\n".join(lines) ]. *)
Definition generate_model_card_yaml language license library_name pipeline_tag
    tags base_model datasets extra_metadata : string :=
  String.concat (str1 nl)
    (model_card_yaml_lines language license library_name pipeline_tag
       tags base_model datasets extra_metadata).

Definition section_lines (title body : string) : list string :=
  if String.eqb body "" then [] else ["## " ++ title; ""; body; ""].

(** [generate_model_card]. *)
Definition generate_model_card (model_name language license library_name pipeline_tag : string)
    (tags : list string) (base_model : string) (datasets : list string)
    (model_description intended_use training_details evaluation limitations : string)
    (extra_metadata : list (string * meta_value)) : string :=
  let yaml := generate_model_card_yaml language license library_name pipeline_tag
                tags base_model datasets extra_metadata in
  String.concat (str1 nl)
    ([yaml; ""; "# " ++ model_name; ""]
     ++ section_lines "Model Description" model_description
     ++ section_lines "Intended Use" intended_use
     ++ section_lines "Training Details" training_details
     ++ section_lines "Evaluation" evaluation
     ++ section_lines "Limitations and Biases" limitations).

(** What a non-empty section adds to the card text. *)
Definition section_text (title body : string) : string :=
  if String.eqb body "" then ""
  else str1 nl ++ "## " ++ title ++ str1 nl ++ str1 nl ++ body ++ str1 nl.

(** [str.split("\n")]. *)
Fixpoint split_nl (s : string) : list string :=
  match s with
  | EmptyString => [""]
  | String c s' =>
      if Ascii.eqb c nl then "" :: split_nl s'
      else match split_nl s' with
           | [] => [str1 c]
           | x :: xs => String c x :: xs
           end
  end.

(** The [k]-th wait of a run, counting from 1 at [start]. *)
Definition wait_of (delay : Q) (k : nat) : Q := delay * inject_Z (Z.of_nat k).

(** A frontmatter line: one line, not the [---] delimiter. *)
Definition yaml_line_ok (l : string) : Prop := has_char nl l = false /\ l <> "---".

(** ** hf_repos.py, [list_repo_files] *)

(** A [RepoSibling] as the listing returns it: [size], [blob_id] and [lfs]
    may be missing ([None]); [lfs] is a dict, truthy when non-empty. *)
Record sibling := mkSibling {
  sib_rfilename : string;
  sib_size : option Z;
  sib_blob_id : option string;
  sib_lfs : option (list (string * string)) }.

(** [RepoFileEntry]. *)
Record RepoFileEntry := mkRepoFileEntry {
  rfilename : string;
  size : Z;
  blob_id : string;
  is_lfs : bool }.

(** The body of the [for sib in info.siblings or []] loop. *)
Definition entry_of (sib : sibling) : RepoFileEntry :=
  mkRepoFileEntry (sib_rfilename sib)
    (match sib_size sib with Some z => z | None => 0%Z end)
    (match sib_blob_id sib with Some b => b | None => "" end)
    (match sib_lfs sib with Some (_ :: _) => true | _ => false end).

(** The sort key [e.rfilename.lower()]. *)
Definition file_key (e : RepoFileEntry) : string := py_lower (rfilename e).

(** [sorted(entries, key=...)]: a stable sort, written as an insertion
    sort that puts each new entry after every entry whose key is not
    greater than its own. *)
Fixpoint insert_by_key (e : RepoFileEntry) (l : list RepoFileEntry) : list RepoFileEntry :=
  match l with
  | [] => [e]
  | x :: l' => if String.ltb (file_key e) (file_key x) then e :: l
               else x :: insert_by_key e l'
  end.

Definition sort_by_key (l : list RepoFileEntry) : list RepoFileEntry :=
  fold_left (fun acc e => insert_by_key e acc) l [].

(** The order of the sort: keys compared as Python compares strings. *)
Definition key_le (a b : RepoFileEntry) : Prop := String.leb (file_key a) (file_key b) = true.

(** Has the sort key [k]. *)
Definition key_is (k : string) (e : RepoFileEntry) : bool := String.eqb (file_key e) k.

(** [list_repo_files]: the dispatch on [repo_type], the [with_retry] call
    of the matching [*_info] method (whose result is [info.siblings], [None]
    when absent), [except HFRepoError: raise], [except Exception] wrapped,
    then the entries sorted by lower-cased file name. *)
Definition list_repo_files (repo_type : string)
    (model_info dataset_info space_info : operation (option (list sibling)))
    : outcome (list RepoFileEntry) * list event :=
  let call :=
    if String.eqb repo_type "model" then Some model_info
    else if String.eqb repo_type "dataset" then Some dataset_info
    else if String.eqb repo_type "space" then Some space_info
    else None in
  match call with
  | None => (Exc (mkExn 0 HFRepoError ("Unknown repo type: " ++ repo_type)), [])
  | Some m =>
      let (r, tr) := with_retry_default m in
      match r with
      | Ret siblings =>
          let sibs := match siblings with Some l => l | None => [] end in
          (Ret (sort_by_key (map entry_of sibs)), tr)
      | Exc e =>
          match exn_cls e with
          | HFRepoError => (Exc e, tr)
          | _ => (wrap_errors HFRepoError "Failed to list files: " (Exc e), tr)
          end
      end
  end.

(** ** hf_repos.py: [list_my_repos], [get_repo_info], [list_repo_refs] *)

(** The [if repo_type == "model": ... elif ...] dispatch: the method
    called for [repo_type], [None] for the [else] branch. *)
Definition repo_type_dispatch {X} (repo_type : string) (model dataset space : X) : option X :=
  if String.eqb repo_type "model" then Some model
  else if String.eqb repo_type "dataset" then Some dataset
  else if String.eqb repo_type "space" then Some space
  else None.

(** An attribute of a hub object as [hasattr] and [getattr] see it:
    absent, or present with a value ([None] for Python's [None]). *)
Inductive attr (T : Type) := Absent | Present (v : option T).
Arguments Absent {T}.
Arguments Present {T} v.

(** [getattr(obj, name, default)]. *)
Definition getattr {T} (a : attr T) (default : T) : option T :=
  match a with Absent => Some default | Present v => v end.

(** [x or d], for the types where the only falsy values besides [None]
    equal [d] ([0 or 0], [[] or []]). *)
Definition or_default {T} (v : option T) (d : T) : T :=
  match v with Some x => x | None => d end.

(** [hasattr(obj, name) and obj.name], then [str(obj.name)]: a value is
    given by its [str()], and is truthy when that is not empty (a
    [datetime]'s never is). *)
Definition truthy_str (a : attr string) : option string :=
  match a with
  | Present (Some s) => if String.eqb s "" then None else Some s
  | _ => None
  end.

(** A [ModelInfo], [DatasetInfo] or [SpaceInfo] object, through the
    attributes the code reads ([id] is always present). *)
Record hub_repo := mkHubRepo {
  hub_id : string;
  hub_last_modified : attr string;
  hub_lastModified : attr string;
  hub_tags : attr (list string);
  hub_private : attr bool;
  hub_sha : attr string;
  hub_downloads : attr Z;
  hub_likes : attr Z
}.

(** [RepoInfo]; [private] and [sha] hold whatever [getattr] returned,
    [None] included. *)
Record RepoInfo := mkRepoInfo {
  ri_repo_id : string;
  ri_repo_type : string;
  ri_private : option bool;
  ri_sha : option string;
  ri_last_modified : string;
  ri_tags : list string;
  ri_downloads : Z;
  ri_likes : Z
}.

(** The [RepoInfo(...)] built from [item] once [modified] is computed. *)
Definition repo_info_of (repo_type modified : string) (item : hub_repo) : RepoInfo :=
  mkRepoInfo (hub_id item) repo_type
    (getattr (hub_private item) false)
    (getattr (hub_sha item) "")
    modified
    (or_default (getattr (hub_tags item) []) [])
    (or_default (getattr (hub_downloads item) 0%Z) 0%Z)
    (or_default (getattr (hub_likes item) 0%Z) 0%Z).

(** [HfApi.list_models], [list_datasets] and [list_spaces] are generator
    functions: calling one returns a generator at once, and the paginated
    requests run as the caller iterates it.  An iteration is given by the
    items it yields and the exception that ends it, if any. *)
Definition generator (T : Type) : Type := list T * option exn.

(** [list_my_repos]: the [with_retry] call of the listing method inside
    the [try], then the [for item in items] loop after it. *)
Definition list_my_repos (repo_type : string)
    (list_models list_datasets list_spaces : operation (generator hub_repo))
    : outcome (list RepoInfo) * list event :=
  match repo_type_dispatch repo_type list_models list_datasets list_spaces with
  | None => (Exc (mkExn 0 HFRepoError ("Unknown repo type: " ++ repo_type)), [])
  | Some m =>
      let (r, tr) := with_retry_default m in
      match r with
      | Ret (items, stop) =>
          let modified item :=
            match truthy_str (hub_last_modified item) with
            | Some d => d
            | None => match truthy_str (hub_lastModified item) with
                      | Some d => d
                      | None => ""
                      end
            end in
          match stop with
          | None => (Ret (map (fun item => repo_info_of repo_type (modified item) item) items), tr)
          | Some e => (Exc e, tr)
          end
      | Exc e =>
          match exn_cls e with
          | HFRepoError => (Exc e, tr)
          | _ => (wrap_errors HFRepoError "Failed to list repos: " (Exc e), tr)
          end
      end
  end.

(** [get_repo_info]: the [with_retry] call of the [*_info] method, with
    [except RepositoryNotFoundError] raising a new [HFRepoError] while
    handling [e] (its [__context__]; the model keeps [e]'s identity). *)
Definition get_repo_info (repo_id repo_type : string)
    (model_info dataset_info space_info : operation hub_repo)
    : outcome RepoInfo * list event :=
  match repo_type_dispatch repo_type model_info dataset_info space_info with
  | None => (Exc (mkExn 0 HFRepoError ("Unknown repo type: " ++ repo_type)), [])
  | Some m =>
      let (r, tr) := with_retry_default m in
      match r with
      | Ret info =>
          let modified := match truthy_str (hub_last_modified info) with
                          | Some d => d
                          | None => ""
                          end in
          (Ret (repo_info_of repo_type modified info), tr)
      | Exc e =>
          match exn_cls e with
          | HFRepoError => (Exc e, tr)
          | RepositoryNotFoundError _ =>
              (Exc (mkExn (exn_id e) HFRepoError ("Repository not found: " ++ repo_id)), tr)
          | _ => (wrap_errors HFRepoError "Failed to get repo info: " (Exc e), tr)
          end
      end
  end.

(** [GitRefs] and its [GitRefInfo] entries, through what the code reads. *)
Record git_ref := mkGitRef { ref_name : string }.
Record git_refs := mkGitRefs {
  refs_branches : option (list git_ref);
  refs_tags : option (list git_ref)
}.

(** [list_repo_refs]: everything inside the [try]; the returned dict
    [{"branches": ..., "tags": ...}] is the pair of its two lists. *)
Definition list_repo_refs (api_list_repo_refs : operation git_refs)
    : outcome (list string * list string) * list event :=
  let (r, tr) := with_retry_default api_list_repo_refs in
  match r with
  | Ret refs =>
      (Ret (map ref_name (or_default (refs_branches refs) []),
            map ref_name (or_default (refs_tags refs) [])), tr)
  | Exc e => (wrap_errors HFRepoError "Failed to list refs: " (Exc e), tr)
  end.

(** An outcome that raises, if at all, an exception of class [cls] or one
    that is not an [Exception] (and so passes every [except Exception]). *)
Definition raises_only {B} (cls : exn_class) (r : outcome B) : Prop :=
  match r with
  | Ret _ => True
  | Exc e => exn_cls e = cls \/ is_Exception (exn_cls e) = false
  end.

(** An outcome that raises no [Exception]. *)
Definition raises_no_Exception {B} (r : outcome B) : Prop :=
  match r with
  | Ret _ => True
  | Exc e => is_Exception (exn_cls e) = false
  end.

(** The caller of a backend function receives the failure [e] of its API
    call: [e] itself, or an exception raised from it
    ([raise Cls(f"...{e}") from e]) whose [str()] ends with [e]'s. *)
Definition propagated (e e' : exn) : Prop :=
  e' = e \/ (exn_id e' = exn_id e /\ exists prefix, exn_msg e' = prefix ++ exn_msg e).

Definition raises_from {B} (e : exn) (r : outcome B) : Prop :=
  exists e', r = Exc e' /\ propagated e e'.

(** ** hf_auth.py: the shared [HfApi] handle

    The module global [_api_instance] holds the shared handle.  Each
    [HfApi(token=...)] is a new object, told apart by [h_id]; [h_token] is
    the token it was built with. *)
Record handle := mkHandle { h_id : nat; h_token : option string }.

Record auth_state := mkAuth {
  _api_instance : option handle;
  next_handle : nat              (* identity of the next [HfApi] object *)
}.

(** [get_api(token)]: a new [HfApi(token=token if token else None)] when
    there is none yet or a token is given, else the shared one. *)
Definition get_api (token : option string) (s : auth_state) : handle * auth_state :=
  match _api_instance s, token with
  | Some h, None => (h, s)
  | _, _ =>
      let h := mkHandle (next_handle s)
                 (match token with
                  | Some t => if String.eqb t "" then None else Some t
                  | None => None
                  end) in
      (h, mkAuth (Some h) (S (next_handle s)))
  end.

(** [_reset_api()]. *)
Definition _reset_api (s : auth_state) : auth_state := mkAuth None (next_handle s).

(** [login(token)] with the shared handle: [api_whoami h] is [h.whoami()].
    [_reset_api] runs in the [except Exception] clause only; the
    [UserInfo] is built after the [try]. *)
Definition login_st (token : string) (api_whoami : handle -> outcome json) (s : auth_state)
    : outcome UserInfo * auth_state :=
  let token := py_strip token in
  if String.eqb token "" then (Exc (mkExn 0 HFAuthError "Token cannot be empty."), s)
  else
    let (api, s1) := get_api (Some token) s in
    match api_whoami api with
    | Ret info => (user_info_of info, s1)
    | Exc e =>
        if is_Exception (exn_cls e)
        then (Exc (mkExn (exn_id e) HFAuthError ("Login failed: " ++ exn_msg e)), _reset_api s1)
        else (Exc e, s1)
    end.

(** [whoami(token)] with the shared handle: [get_api(token)],
    [api.whoami()] and the [UserInfo] inside [try ... except Exception:
    return None]. *)
Definition whoami_st (token : option string) (api_whoami : handle -> outcome json) (s : auth_state)
    : outcome (option UserInfo) * auth_state :=
  let (api, s1) := get_api token s in
  match obind (api_whoami api) user_info_of with
  | Ret u => (Ret (Some u), s1)
  | Exc e => if is_Exception (exn_cls e) then (Ret None, s1) else (Exc e, s1)
  end.

(** ** Retry policy: examples *)

Example with_retry_ex1 :
  with_retry (always_raise_fresh (A:=nat) (HfHubHTTPError (Some 503%Z))) 3 1
  = (Exc (mkExn 2 (HfHubHTTPError (Some 503%Z)) "failure"),
     [Invoke; Sleep 1; Invoke; Sleep 2; Invoke]).
Proof. vm_compute. reflexivity. Qed.

(** A wait beyond [time.sleep]'s range: the first sleep raises
    [OverflowError], which escapes after one invocation. *)
Example with_retry_overflow_ex :
  with_retry (always_raise_fresh (A:=nat) (HfHubHTTPError (Some 503%Z))) 3 10000000000
  = (Exc overflow_error, [Invoke]).
Proof. vm_compute. reflexivity. Qed.

(** ** Retry policy: lemmas *)

Lemma retryable_caught e : _is_retryable e = true -> caught_by_with_retry e = true.
Proof.
  unfold _is_retryable, caught_by_with_retry.
  destruct (exn_cls e); simpl; try discriminate; auto.
Qed.

Lemma time_sleep_ok (q : Q) : 0 <= q -> q < sleep_limit -> time_sleep q = Slept q.
Proof.
  intros H0 Hl. unfold time_sleep.
  destruct (Qle_bool sleep_limit q) eqn:E1.
  { apply Qle_bool_iff in E1. exfalso. exact (Qlt_not_le _ _ Hl E1). }
  assert (Hm : Qle_bool (- sleep_limit) q = true).
  { apply Qle_bool_iff. apply Qle_trans with 0; [vm_compute; discriminate|exact H0]. }
  rewrite Hm. cbn [orb negb]. apply Qle_bool_iff in H0. rewrite H0. reflexivity.
Qed.

Lemma time_sleep_slept (w : pyfloat) (q : Q) :
  time_sleep w = Slept q -> w = PFin q /\ 0 <= q /\ q < sleep_limit.
Proof.
  intros H. unfold time_sleep in H. destruct w as [p| | |]; try discriminate H.
  cbv beta iota in H.
  destruct (Qle_bool sleep_limit p) eqn:E1; cbn [orb negb] in H; [discriminate H|].
  destruct (Qle_bool (- sleep_limit) p); cbn [orb negb] in H; [|discriminate H].
  destruct (Qle_bool 0 p) eqn:E2; [|discriminate H].
  injection H as <-. split; [reflexivity|]. split.
  - apply Qle_bool_iff. exact E2.
  - apply Qnot_le_lt. intros Hle. apply Qle_bool_iff in Hle. congruence.
Qed.

Lemma wait_sleeps (delay : Q) (k K : Z) :
  0 <= delay -> (0 <= k <= K)%Z -> delay * inject_Z K < sleep_limit ->
  time_sleep (wait_value delay k) = Slept (delay * inject_Z k).
Proof.
  intros Hd Hk Hl. unfold wait_value. apply time_sleep_ok.
  - apply Qmult_le_0_compat; [exact Hd|]. change 0 with (inject_Z 0). rewrite <- Zle_Qle. lia.
  - apply Qle_lt_trans with (delay * inject_Z K); [|exact Hl].
    rewrite (Qmult_comm delay), (Qmult_comm delay). apply Qmult_le_compat_r; [|exact Hd].
    rewrite <- Zle_Qle. lia.
Qed.

Lemma neg_wait_raises (delay : Q) (k : Z) :
  delay < 0 -> (1 <= k)%Z -> exists e, time_sleep (wait_value delay k) = SleepRaised e.
Proof.
  intros Hd Hk. unfold time_sleep, wait_value. cbv beta iota.
  destruct (Qle_bool sleep_limit (delay * inject_Z k)
            || negb (Qle_bool (- sleep_limit) (delay * inject_Z k)));
    [eexists; reflexivity|].
  destruct (Qle_bool 0 (delay * inject_Z k)) eqn:E; [|eexists; reflexivity].
  exfalso. apply Qle_bool_iff in E.
  assert (Hpos : 0 < inject_Z k).
  { change 0 with (inject_Z 0). rewrite <- Zlt_Qlt. lia. }
  apply (Qmult_lt_compat_r delay 0 _ Hpos) in Hd.
  rewrite Qmult_0_l in Hd. exact (Qlt_not_le _ _ Hd E).
Qed.

Lemma nonfinite_wait_raises (delay : pyfloat) (k : Z) :
  (delay = PInf \/ delay = PNegInf \/ delay = PNaN) ->
  exists e, time_sleep (wait_value delay k) = SleepRaised e.
Proof. intros [-> | [-> | ->]]; eexists; reflexivity. Qed.

Section AllRetryable.
Variable A : Type.
Variable fn : operation A.
Variable retries : Z.
Variable delay : Q.
Hypothesis Hdelay : 0 <= delay.
Hypothesis Hlimit : delay * inject_Z (retries - 1) < sleep_limit.
Hypothesis Hfn : forall i, exists e, fn i = Exc e /\ _is_retryable e = true.

Lemma loop_all_retryable : forall fuel attempt last,
  Z.of_nat (attempt + fuel) = retries -> (1 <= fuel)%nat ->
  retry_loop fn retries delay attempt fuel last
  = (fn (attempt + fuel - 1)%nat, fail_trace delay attempt fuel).
Proof.
  induction fuel as [|fuel IH]; intros attempt last Hr Hf; [lia|].
  destruct (Hfn attempt) as [e [He Hre]].
  cbn [retry_loop]. rewrite He, (retryable_caught e Hre), Hre. cbn [negb].
  destruct fuel as [|fuel'].
  - rewrite (proj2 (Z.ltb_ge _ _)) by lia. cbn.
    replace (attempt + 1 - 1)%nat with attempt by lia. rewrite He. reflexivity.
  - rewrite (proj2 (Z.ltb_lt _ _)) by lia.
    rewrite (wait_sleeps delay (Z.of_nat attempt + 1) (retries - 1) Hdelay)
      by first [lia | exact Hlimit].
    rewrite IH by lia.
    replace (S attempt + S fuel' - 1)%nat with (attempt + S (S fuel') - 1)%nat by lia.
    reflexivity.
Qed.

End AllRetryable.

Lemma fail_trace_invocations delay : forall fuel attempt,
  invocations (fail_trace delay attempt fuel) = fuel.
Proof.
  induction fuel as [|[|fuel] IH]; intros attempt; [reflexivity|reflexivity|].
  change (fail_trace delay attempt (S (S fuel)))
    with (Invoke :: Sleep (delay * inject_Z (Z.of_nat attempt + 1))
                 :: fail_trace delay (S attempt) (S fuel)).
  unfold invocations in *. cbn [filter List.length]. rewrite IH. reflexivity.
Qed.

Lemma loop_sleeps_none {A} (fn : operation A) retries (delay : pyfloat) :
  forall fuel attempt last,
  ((forall k, (1 <= k)%Z -> exists e, time_sleep (wait_value delay k) = SleepRaised e)
   \/ (retries - 1 <= Z.of_nat attempt)%Z) ->
  sleeps (snd (retry_loop fn retries delay attempt fuel last)) = [].
Proof.
  induction fuel as [|fuel IH]; intros attempt last Hnone.
  - destruct last; reflexivity.
  - cbn [retry_loop]. destruct (fn attempt) as [v|e]; [reflexivity|].
    destruct (negb (caught_by_with_retry e)); [reflexivity|].
    destruct (negb (_is_retryable e)); [reflexivity|].
    destruct (Z.of_nat attempt <? retries - 1)%Z eqn:Hlt.
    + destruct Hnone as [Hd|Hge]; [|apply Z.ltb_lt in Hlt; lia].
      destruct (Hd (Z.of_nat attempt + 1)%Z ltac:(lia)) as [e' He'].
      rewrite He'. reflexivity.
    + specialize (IH (S attempt) (Some e)).
      destruct (retry_loop fn retries delay (S attempt) fuel (Some e)) as [r tr].
      apply IH. destruct Hnone as [Hd|Hge]; [left; exact Hd|right; lia].
Qed.

Lemma loop_sleeps {A} (fn : operation A) retries (delay : Q) : forall fuel attempt last,
  exists m, sleeps (snd (retry_loop fn retries delay attempt fuel last))
            = map (wait_of delay) (seq (S attempt) m).
Proof.
  induction fuel as [|fuel IH]; intros attempt last.
  - exists O. destruct last; reflexivity.
  - cbn [retry_loop]. destruct (fn attempt) as [v|e]; [exists O; reflexivity|].
    destruct (negb (caught_by_with_retry e)); [exists O; reflexivity|].
    destruct (negb (_is_retryable e)); [exists O; reflexivity|].
    destruct (Z.of_nat attempt <? retries - 1)%Z eqn:Hlt.
    + destruct (time_sleep (wait_value delay (Z.of_nat attempt + 1))) as [w|e'] eqn:Hs;
        [|exists O; reflexivity].
      apply time_sleep_slept in Hs as [Hw _]. cbn [wait_value] in Hw.
      injection Hw as Hw.
      destruct (IH (S attempt) (Some e)) as [m Hm].
      destruct (retry_loop fn retries delay (S attempt) fuel (Some e)) as [r tr].
      exists (S m). cbn [snd sleeps] in *. rewrite Hm. cbn [seq map].
      unfold wait_of. rewrite Nat2Z.inj_succ, <- Hw. reflexivity.
    + exists O. apply Z.ltb_ge in Hlt.
      assert (Hge : (retries - 1 <= Z.of_nat (S attempt))%Z) by lia.
      pose proof (loop_sleeps_none fn retries delay fuel (S attempt) (Some e)
                    (or_intror Hge)) as Hn.
      destruct (retry_loop fn retries delay (S attempt) fuel (Some e)) as [r tr].
      exact Hn.
Qed.

Lemma loop_sleeps_bounded {A} (fn : operation A) retries (delay : pyfloat) :
  forall fuel attempt last,
  Forall (fun w => 0 <= w /\ w < sleep_limit)
         (sleeps (snd (retry_loop fn retries delay attempt fuel last))).
Proof.
  induction fuel as [|fuel IH]; intros attempt last.
  - destruct last; apply Forall_nil.
  - cbn [retry_loop]. destruct (fn attempt) as [v|e]; [apply Forall_nil|].
    destruct (negb (caught_by_with_retry e)); [apply Forall_nil|].
    destruct (negb (_is_retryable e)); [apply Forall_nil|].
    destruct (Z.of_nat attempt <? retries - 1)%Z.
    + destruct (time_sleep (wait_value delay (Z.of_nat attempt + 1))) as [w|e'] eqn:Hs;
        [|apply Forall_nil].
      apply time_sleep_slept in Hs as [_ Hw].
      specialize (IH (S attempt) (Some e)).
      destruct (retry_loop fn retries delay (S attempt) fuel (Some e)) as [r tr].
      cbn [snd sleeps] in *. constructor; assumption.
    + specialize (IH (S attempt) (Some e)).
      destruct (retry_loop fn retries delay (S attempt) fuel (Some e)) as [r tr].
      exact IH.
Qed.

Lemma waits_sorted_le delay : 0 <= delay -> forall m s,
  Sorted Qle (map (wait_of delay) (seq s m)).
Proof.
  intros Hd. induction m as [|m IH]; intros s; [constructor|].
  cbn [seq map]. constructor; [apply IH|].
  destruct m as [|m]; constructor. unfold wait_of.
  rewrite (Qmult_comm delay), (Qmult_comm delay).
  apply Qmult_le_compat_r; [|exact Hd]. rewrite <- Zle_Qle. lia.
Qed.

Lemma waits_sorted_lt delay : 0 < delay -> forall m s,
  Sorted Qlt (map (wait_of delay) (seq s m)).
Proof.
  intros Hd. induction m as [|m IH]; intros s; [constructor|].
  cbn [seq map]. constructor; [apply IH|].
  destruct m as [|m]; constructor. unfold wait_of.
  apply Qmult_lt_l; [exact Hd|]. rewrite <- Zlt_Qlt. lia.
Qed.

Lemma waits_lt_pos delay m :
  (2 <= m)%nat -> Sorted Qlt (map (wait_of delay) (seq 1 m)) -> 0 < delay.
Proof.
  intros Hm Hs. destruct m as [|[|m]]; [lia|lia|].
  cbn [seq map] in Hs. apply Sorted_inv in Hs as [_ Hs].
  inversion Hs as [|b l Hlt]. change (delay * 1 < delay * 2) in Hlt. lra.
Qed.

Lemma with_retry_all_retryable {A} (fn : operation A) (n : Z) (d : Q) :
  (1 <= n)%Z -> 0 <= d -> d * inject_Z (n - 1) < sleep_limit ->
  (forall i, exists e, fn i = Exc e /\ _is_retryable e = true) ->
  with_retry fn n d = (fn (Z.to_nat n - 1)%nat, fail_trace d 0 (Z.to_nat n)).
Proof.
  intros Hn Hd Hl Hfn. unfold with_retry.
  rewrite (loop_all_retryable A fn n d Hd Hl Hfn (Z.to_nat n) 0 None); [|lia|lia].
  reflexivity.
Qed.

(** ** Retry policy: claims *)

(** C1 (counterexample).  With a negative [delay] and [retries = 2], the
    first retryable failure is followed by [time.sleep(-1)], which raises
    [ValueError]: [fn] is invoked once and the 503 failure is not the one
    raised. *)
Lemma C1_negative_delay_counterexample :
  let r := with_retry (always_raise (A:=nat) (http_error 1 503)) 2 (-1) in
  ~ (invocations (snd r) = 2%nat /\ fst r = Exc (http_error 1 503)).
Proof. vm_compute. intros [H _]. discriminate H. Qed.

(** C1 (amended).  If every invocation of [fn] raises a retryable failure,
    [retries = n >= 1], [delay = d >= 0] and the longest wait [d * (n - 1)]
    is below [time.sleep]'s limit, then [with_retry] invokes [fn] exactly
    [n] times and raises the failure of the last ([n]-th) invocation. *)
Theorem C1_retry_exhaustion {A} (fn : operation A) (n : Z) (d : Q) :
  (1 <= n)%Z -> 0 <= d -> d * inject_Z (n - 1) < sleep_limit ->
  (forall i, exists e, fn i = Exc e /\ _is_retryable e = true) ->
  invocations (snd (with_retry fn n d)) = Z.to_nat n
  /\ fst (with_retry fn n d) = fn (Z.to_nat n - 1)%nat.
Proof.
  intros Hn Hd Hl Hfn. rewrite (with_retry_all_retryable fn n d Hn Hd Hl Hfn).
  split; [apply fail_trace_invocations|reflexivity].
Qed.

Lemma C1_retry_exhaustion_witness :
  (1 <= 3)%Z /\ 0 <= 1 /\ 1 * inject_Z (3 - 1) < sleep_limit /\
  (forall i, exists e, always_raise_fresh (A:=nat) ConnectError i = Exc e
                       /\ _is_retryable e = true) /\
  invocations (snd (with_retry (always_raise_fresh (A:=nat) ConnectError) 3 1)) = 3%nat
  /\ fst (with_retry (always_raise_fresh (A:=nat) ConnectError) 3 1)
     = always_raise_fresh ConnectError 2%nat.
Proof.
  assert (Hfn : forall i, exists e, always_raise_fresh (A:=nat) ConnectError i = Exc e
                                    /\ _is_retryable e = true).
  { intros i. eexists. split; reflexivity. }
  split; [lia|]. split; [vm_compute; discriminate|].
  split; [vm_compute; reflexivity|]. split; [exact Hfn|].
  apply (C1_retry_exhaustion (always_raise_fresh ConnectError) 3 1);
    [lia|vm_compute; discriminate|vm_compute; reflexivity|exact Hfn].
Defined.

(** C3.  With [retries = 3] and a delay [d >= 0] whose longest wait [2 d]
    is below [time.sleep]'s limit (the default [delay = 1.0] among them),
    an operation that always raises an [HfHubHTTPError] whose response has
    status 503 is invoked 3 times and its last failure is raised; one that
    always raises such an error with status 404 is invoked once and its
    failure is raised. *)
Theorem C3_status_classification {A} (fn503 fn404 : operation A) (d : Q) :
  0 <= d -> d * 2 < sleep_limit ->
  (forall i, exists e, fn503 i = Exc e /\ exn_cls e = HfHubHTTPError (Some 503%Z)) ->
  (forall i, exists e, fn404 i = Exc e /\ exn_cls e = HfHubHTTPError (Some 404%Z)) ->
  invocations (snd (with_retry fn503 3 d)) = 3%nat
  /\ fst (with_retry fn503 3 d) = fn503 2%nat
  /\ invocations (snd (with_retry fn404 3 d)) = 1%nat
  /\ fst (with_retry fn404 3 d) = fn404 O.
Proof.
  intros Hd Hl H503 H404.
  assert (Hr : forall i, exists e, fn503 i = Exc e /\ _is_retryable e = true).
  { intros i. destruct (H503 i) as [e [He Hc]]. exists e. split; [exact He|].
    unfold _is_retryable. rewrite Hc. reflexivity. }
  rewrite (with_retry_all_retryable fn503 3 d ltac:(lia) Hd Hl Hr).
  destruct (H404 O) as [e [He Hc]].
  cbn [snd fst]. rewrite fail_trace_invocations. unfold with_retry.
  change (Z.to_nat 3) with 3%nat. cbn [retry_loop fst snd]. rewrite He.
  unfold caught_by_with_retry, _is_retryable. rewrite Hc. cbn.
  repeat split.
Qed.

Lemma C3_status_classification_witness :
  0 <= 1 /\ 1 * 2 < sleep_limit /\
  (forall i, exists e, always_raise_fresh (A:=nat) (HfHubHTTPError (Some 503%Z)) i = Exc e
                       /\ exn_cls e = HfHubHTTPError (Some 503%Z)) /\
  (forall i, exists e, always_raise_fresh (A:=nat) (HfHubHTTPError (Some 404%Z)) i = Exc e
                       /\ exn_cls e = HfHubHTTPError (Some 404%Z)) /\
  invocations (snd (with_retry (always_raise_fresh (A:=nat) (HfHubHTTPError (Some 503%Z))) 3 1)) = 3%nat
  /\ fst (with_retry (always_raise_fresh (A:=nat) (HfHubHTTPError (Some 503%Z))) 3 1)
     = always_raise_fresh (HfHubHTTPError (Some 503%Z)) 2%nat
  /\ invocations (snd (with_retry (always_raise_fresh (A:=nat) (HfHubHTTPError (Some 404%Z))) 3 1)) = 1%nat
  /\ fst (with_retry (always_raise_fresh (A:=nat) (HfHubHTTPError (Some 404%Z))) 3 1)
     = always_raise_fresh (HfHubHTTPError (Some 404%Z)) O.
Proof.
  assert (H5 : forall i, exists e, always_raise_fresh (A:=nat) (HfHubHTTPError (Some 503%Z)) i = Exc e
                       /\ exn_cls e = HfHubHTTPError (Some 503%Z)).
  { intros i. eexists. split; reflexivity. }
  assert (H4 : forall i, exists e, always_raise_fresh (A:=nat) (HfHubHTTPError (Some 404%Z)) i = Exc e
                       /\ exn_cls e = HfHubHTTPError (Some 404%Z)).
  { intros i. eexists. split; reflexivity. }
  split; [vm_compute; discriminate|]. split; [vm_compute; reflexivity|].
  split; [exact H5|]. split; [exact H4|].
  apply (C3_status_classification _ _ 1);
    [vm_compute; discriminate|vm_compute; reflexivity|exact H5|exact H4].
Defined.

(** C4 (counterexample).  With [delay = 0] the waits after the first and
    second failures are both 0: the sequence is not strictly increasing. *)
Lemma C4_zero_delay_counterexample :
  sleeps (snd (with_retry (always_raise (A:=nat) (http_error 0 503)) 3 0)) = [0 * inject_Z 1; 0 * inject_Z 2]
  /\ ~ Sorted Qlt (sleeps (snd (with_retry (always_raise (A:=nat) (http_error 0 503)) 3 0))).
Proof.
  split; [reflexivity|]. vm_compute. intros H.
  apply Sorted_inv in H as [_ H]. inversion H as [|b l Hlt]. vm_compute in Hlt. discriminate.
Qed.

(** C4 (amended).  For every operation, [retries] and finite [delay], the
    waits slept by [with_retry] are, in order, [delay * 1, delay * 2, ...,
    delay * m] (the wait after the [k]-th failed attempt is [delay * k]),
    each at least 0 and below [time.sleep]'s limit (a wait beyond it makes
    [time.sleep] raise instead).  The sequence is non-decreasing; it is
    strictly increasing when [delay > 0], and, once it has two waits, only
    then.  With [delay < 0] nothing is slept (the first [time.sleep]
    raises), and neither with an infinite or NaN delay. *)
Theorem C4_linear_backoff {A} (fn : operation A) (retries : Z) (delay : Q) :
  (exists m,
    sleeps (snd (with_retry fn retries delay)) = map (wait_of delay) (seq 1 m)
    /\ Forall (fun w => 0 <= w /\ w < sleep_limit) (sleeps (snd (with_retry fn retries delay)))
    /\ Sorted Qle (sleeps (snd (with_retry fn retries delay)))
    /\ (0 < delay -> Sorted Qlt (sleeps (snd (with_retry fn retries delay))))
    /\ ((2 <= List.length (sleeps (snd (with_retry fn retries delay))))%nat ->
        Sorted Qlt (sleeps (snd (with_retry fn retries delay))) -> 0 < delay)
    /\ (delay < 0 -> sleeps (snd (with_retry fn retries delay)) = []))
  /\ (forall d : pyfloat, d = PInf \/ d = PNegInf \/ d = PNaN ->
        sleeps (snd (with_retry fn retries d)) = []).
Proof.
  split.
  - destruct (loop_sleeps fn retries delay (Z.to_nat retries) 0 None) as [m Hm].
    pose proof (loop_sleeps_bounded fn retries delay (Z.to_nat retries) 0 None) as Hb.
    assert (Hneg : delay < 0 ->
                   sleeps (snd (retry_loop fn retries delay 0 (Z.to_nat retries) None)) = []).
    { intros Hd. apply loop_sleeps_none. left. intros k Hk.
      apply neg_wait_raises; assumption. }
    unfold with_retry. exists m. rewrite Hm in Hb, Hneg |- *.
    split; [reflexivity|]. split; [exact Hb|]. split; [|split; [|split]].
    + destruct (Qlt_le_dec delay 0) as [Hd|Hnn].
      * rewrite (Hneg Hd). constructor.
      * apply waits_sorted_le. exact Hnn.
    + intros Hpos. apply waits_sorted_lt. exact Hpos.
    + intros Hl Hs. rewrite length_map, length_seq in Hl. exact (waits_lt_pos delay m Hl Hs).
    + exact Hneg.
  - intros d Hd. unfold with_retry. apply loop_sleeps_none. left. intros k Hk.
    apply nonfinite_wait_raises. exact Hd.
Qed.

Lemma C4_linear_backoff_witness :
  sleeps (snd (with_retry (always_raise (A:=nat) (http_error 0 503)) 4 (1#2)))
  = map (wait_of (1#2)) (seq 1 3)
  /\ Sorted Qlt (sleeps (snd (with_retry (always_raise (A:=nat) (http_error 0 503)) 4 (1#2))))
  /\ sleeps (snd (with_retry (always_raise (A:=nat) (http_error 0 503)) 4 (-1))) = [].
Proof.
  destruct (C4_linear_backoff (always_raise (A:=nat) (http_error 0 503)) 4 (1#2))
    as [[m [Hm [_ [_ [Hlt _]]]]] _].
  destruct (C4_linear_backoff (always_raise (A:=nat) (http_error 0 503)) 4 (-1))
    as [[m' [_ [_ [_ [_ [_ Hneg]]]]]] _].
  split; [vm_compute; reflexivity|]. split.
  - apply Hlt. vm_compute. reflexivity.
  - apply Hneg. vm_compute. reflexivity.
Defined.

(** C5 (counterexample).  With [retries = 0], an operation raising a 404
    error is not invoked at all. *)
Lemma C5_zero_retries_counterexample :
  invocations (snd (with_retry (always_raise (A:=nat) (http_error 0 404)) 0 1)) <> 1%nat.
Proof. vm_compute. discriminate. Qed.

(** C5 (amended).  When [retries >= 1] and the first invocation of [fn]
    raises a failure [e] that [_is_retryable] rejects (an HTTP error below
    500 or without a response, or any exception outside the retried
    classes), [with_retry] invokes [fn] exactly once, sleeps never, and
    raises [e] itself, whatever the delay. *)
Theorem C5_non_retryable_short_circuit {A} (fn : operation A) (retries : Z) (delay : pyfloat) (e : exn) :
  (1 <= retries)%Z -> fn O = Exc e -> _is_retryable e = false ->
  with_retry fn retries delay = (Exc e, [Invoke]).
Proof.
  intros Hr He Hnr. unfold with_retry.
  destruct (Z.to_nat retries) as [|k] eqn:Hk; [lia|].
  cbn [retry_loop]. rewrite He, Hnr.
  destruct (caught_by_with_retry e); reflexivity.
Qed.

Lemma C5_non_retryable_short_circuit_witness :
  (1 <= 3)%Z /\ always_raise (A:=nat) (http_error 7 404) O = Exc (http_error 7 404)
  /\ _is_retryable (http_error 7 404) = false
  /\ with_retry (always_raise (A:=nat) (http_error 7 404)) 3 1 = (Exc (http_error 7 404), [Invoke]).
Proof.
  split; [lia|]. split; [reflexivity|]. split; [reflexivity|].
  apply C5_non_retryable_short_circuit; [lia|reflexivity|reflexivity].
Defined.

(** C6.  If the first two invocations raise retryable failures and the
    third returns [v], [with_retry(fn, retries=3)] (default [delay=1.0])
    invokes [fn] three times, sleeping 1 and then 2, and returns [v]. *)
Theorem C6_early_success {A} (fn : operation A) (v : A) (e0 e1 : exn) :
  fn 0%nat = Exc e0 -> _is_retryable e0 = true ->
  fn 1%nat = Exc e1 -> _is_retryable e1 = true ->
  fn 2%nat = Ret v ->
  with_retry fn 3 1 = (Ret v, [Invoke; Sleep (1 * inject_Z 1); Invoke; Sleep (1 * inject_Z 2); Invoke])
  /\ invocations (snd (with_retry fn 3 1)) = 3%nat.
Proof.
  intros H0 R0 H1 R1 H2.
  assert (Hw : with_retry fn 3 1
               = (Ret v, [Invoke; Sleep (1 * inject_Z 1); Invoke; Sleep (1 * inject_Z 2); Invoke])).
  { unfold with_retry. change (Z.to_nat 3) with 3%nat. cbn [retry_loop].
    rewrite H0, H1, H2, (retryable_caught e0 R0), R0, (retryable_caught e1 R1), R1.
    reflexivity. }
  split; [exact Hw|]. rewrite Hw. reflexivity.
Qed.

Lemma C6_early_success_witness :
  let fn : operation nat := fun i => match i with
                                     | O => Exc (http_error 0 503)
                                     | 1%nat => Exc (mkExn 1 TimeoutException "timed out")
                                     | _ => Ret 42%nat end in
  with_retry fn 3 1 = (Ret 42%nat, [Invoke; Sleep (1 * inject_Z 1); Invoke; Sleep (1 * inject_Z 2); Invoke])
  /\ invocations (snd (with_retry fn 3 1)) = 3%nat.
Proof.
  intros fn. apply (C6_early_success fn 42%nat (http_error 0 503) (mkExn 1 TimeoutException "timed out"));
    reflexivity.
Defined.

(** C10.  With [retries <= 0] the loop body never runs: [fn] is not invoked
    and [raise last_err] with [last_err = None] raises a [TypeError]. *)
Theorem C10_nonpositive_retries {A} (fn : operation A) (retries : Z) (delay : pyfloat) :
  (retries <= 0)%Z ->
  with_retry fn retries delay = (Exc raise_none_error, [])
  /\ exn_cls raise_none_error = TypeError
  /\ invocations (snd (with_retry fn retries delay)) = 0%nat.
Proof.
  intros Hr. unfold with_retry.
  replace (Z.to_nat retries) with 0%nat by lia. cbn. auto.
Qed.

Lemma C10_nonpositive_retries_witness :
  (0 <= 0)%Z /\
  with_retry (always_raise (A:=nat) (http_error 0 503)) 0 1 = (Exc raise_none_error, [])
  /\ exn_cls raise_none_error = TypeError
  /\ invocations (snd (with_retry (always_raise (A:=nat) (http_error 0 503)) 0 1)) = 0%nat.
Proof.
  split; [lia|]. apply C10_nonpositive_retries. lia.
Defined.

(** ** Worker: lemmas *)


Section WorkerProofs.
Context {A : Type}.
Variable fn : operation A.

Lemma run_rest_at_most_one (o : outcome A) c : (List.length (fst (run_rest o c)) <= 1)%nat.
Proof. destruct o as [v|e]; cbn; [destruct c|destruct (is_Exception (exn_cls e)), c]; cbn; lia. Qed.

Lemma run_rest_cancelled (o : outcome A) : fst (run_rest o true) = [].
Proof. destruct o as [v|e]; cbn; [|destruct (is_Exception (exn_cls e))]; reflexivity. Qed.

Lemma wsteps_invariant (P : wstate A -> Prop) :
  (forall s1 s2, wstep fn s1 s2 -> P s1 -> P s2) ->
  forall s1 s2, wsteps fn s1 s2 -> P s1 -> P s2.
Proof. intros Hstep s1 s2 H. induction H; eauto. Qed.

Lemma outcome_inv_step s1 s2 : wstep fn s1 s2 -> outcome_inv s1 -> outcome_inv s2.
Proof.
  intros H [Hpc Hlen]. inversion H; subst; cbn in *.
  - split; [intros _; apply Hpc; discriminate|exact Hlen].
  - rewrite (Hpc ltac:(discriminate)). cbn. split; [intros Hn; exfalso; apply Hn; reflexivity|apply run_rest_at_most_one].
  - split; assumption.
Qed.

Lemma reachable_outcome_inv s : reachable fn s -> outcome_inv s.
Proof.
  intros H. apply (wsteps_invariant outcome_inv outcome_inv_step w_init s H).
  split; [reflexivity|cbn; lia].
Qed.

Lemma silenced_step s1 s2 : wstep fn s1 s2 -> silenced s1 -> silenced s2.
Proof.
  intros H [Hc Hs]. inversion H; subst; cbn in *.
  - split; assumption.
  - subst. rewrite run_rest_cancelled. split; reflexivity.
  - split; [reflexivity|assumption].
Qed.

Lemma uncancelled_inv_step s1 s2 : wstep fn s1 s2 -> uncancelled_inv fn s1 -> uncancelled_inv fn s2.
Proof.
  intros H Hi. inversion H; subst; unfold uncancelled_inv in *; cbn in *.
  - destruct Hi as [Hs He]. auto.
  - destruct Hi as [Ho [Hs He]]. subst. intros Hc. subst. cbn.
    destruct (run_rest (fn O) false); reflexivity.
  - destruct pc as [|o|]; auto. intros Hc; discriminate.
Qed.

Lemma reachable_done_uncancelled s :
  reachable fn s -> w_pc s = WDone -> w_cancelled s = false ->
  (w_signals s, w_escaped s) = run_rest (fn O) false.
Proof.
  intros H Hpc Hc.
  pose proof (wsteps_invariant (uncancelled_inv fn) uncancelled_inv_step w_init s H
                (conj eq_refl eq_refl)) as Hi.
  unfold uncancelled_inv in Hi. rewrite Hpc in Hi. exact (Hi Hc).
Qed.

End WorkerProofs.

(** ** Worker: claims *)

(** C7.  In every reachable state of a worker (any interleaving of [run]
    with [cancel]) at most one outcome signal has been emitted, so never
    both [finished] and [error]; and once [cancel] has set the flag before
    [run] reads it (the worker has not ended), no outcome signal is ever
    emitted afterwards. *)
Theorem C7_single_outcome {A} (fn : operation A) (s : wstate A) :
  reachable fn s ->
  (List.length (w_signals s) <= 1)%nat
  /\ (forall s', w_cancelled s = true -> w_pc s <> WDone -> wsteps fn s s' ->
                 w_signals s' = []).
Proof.
  intros H. destruct (reachable_outcome_inv fn s H) as [Hpc Hlen].
  split; [exact Hlen|]. intros s' Hc Hnd Hs'.
  assert (Hsil : silenced s) by (split; [exact Hc|exact (Hpc Hnd)]).
  exact (proj2 (wsteps_invariant fn silenced (silenced_step fn) s s' Hs' Hsil)).
Qed.

Lemma C7_single_outcome_witness :
  let fn : operation nat := fun _ => Ret 5%nat in
  let s : wstate nat := mkW (WReturned (Ret 5%nat)) true [] None in
  reachable fn s /\
  (List.length (w_signals s) <= 1)%nat
  /\ (forall s', w_cancelled s = true -> w_pc s <> WDone -> wsteps fn s s' ->
                 w_signals s' = []).
Proof.
  intros fn s.
  assert (Hr : reachable fn s).
  { unfold reachable, w_init, s.
    eapply wsteps_step; [apply step_call|].
    eapply wsteps_step; [apply step_cancel|]. apply wsteps_refl. }
  split; [exact Hr|]. apply C7_single_outcome. exact Hr.
Defined.

(** C8.  If [self._fn] raises an exception [e] of an [Exception] subclass,
    [run] of a worker that is not cancelled ends having emitted exactly
    [str(e)] on [error] and nothing else, and no exception leaves [run]. *)
Theorem C8_error_boundary {A} (fn : operation A) (e : exn) :
  fn O = Exc e -> is_Exception (exn_cls e) = true ->
  reachable fn (mkW WDone false [SigError (exn_msg e)] None)
  /\ (forall s, reachable fn s -> w_pc s = WDone -> w_cancelled s = false ->
                w_signals s = [SigError (exn_msg e)] /\ w_escaped s = None).
Proof.
  intros He Hexc. split.
  - unfold reachable, w_init.
    eapply wsteps_step; [apply step_call|].
    eapply wsteps_step; [apply step_check|].
    rewrite He. cbn. rewrite Hexc. cbn. apply wsteps_refl.
  - intros s Hr Hpc Hc.
    pose proof (reachable_done_uncancelled fn s Hr Hpc Hc) as Hrun.
    rewrite He in Hrun. cbn in Hrun. rewrite Hexc in Hrun. cbn in Hrun.
    injection Hrun as Hs Hesc. split; assumption.
Qed.

Lemma C8_error_boundary_witness :
  let e := mkExn 3 (OtherException "KeyError") "'name'" in
  let fn : operation nat := fun _ => Exc e in
  reachable fn (mkW WDone false [SigError (exn_msg e)] None)
  /\ (forall s, reachable fn s -> w_pc s = WDone -> w_cancelled s = false ->
                w_signals s = [SigError (exn_msg e)] /\ w_escaped s = None).
Proof.
  intros e fn. apply C8_error_boundary; reflexivity.
Defined.

(** ** Backend modules: lemmas *)


Lemma direct_call_single {B} cls prefix (m : operation B) :
  snd (direct_call cls prefix m) = [Invoke].
Proof. reflexivity. Qed.




Lemma get_file_content_fails m read e :
  (fst (with_retry_default m) = Exc e
   \/ exists path, fst (with_retry_default m) = Ret path /\ read path = Exc e) ->
  is_Exception (exn_cls e) = true ->
  fst (get_file_content m read)
  = Exc (mkExn (exn_id e) HFFileError ("Failed to get file content: " ++ exn_msg e)).
Proof.
  intros Hcase Hexc. unfold get_file_content.
  destruct (with_retry_default m) as [r tr]. cbn in Hcase.
  destruct Hcase as [Hr|[path [Hr Hread]]]; subst r; cbn;
    [|rewrite Hread]; cbn; rewrite Hexc; reflexivity.
Qed.



Lemma list_repo_files_dispatch {B} t (mi di si : operation B) :
  (if String.eqb t "model" then Some mi
   else if String.eqb t "dataset" then Some di
   else if String.eqb t "space" then Some si else None)
  = repo_type_dispatch t mi di si.
Proof. reflexivity. Qed.



Lemma string_app_assoc (a b c : string) : (a ++ b) ++ c = a ++ (b ++ c).
Proof. induction a as [|x a IH]; cbn; [reflexivity|]. rewrite IH. reflexivity. Qed.

Lemma wrap_errors_propagates {B} cls prefix e :
  raises_from e (wrap_errors (B:=B) cls prefix (Exc e)).
Proof.
  unfold wrap_errors. destruct (is_Exception (exn_cls e)).
  - eexists. split; [reflexivity|]. right. split; [reflexivity|]. exists prefix. reflexivity.
  - exists e. split; [reflexivity|]. left. reflexivity.
Qed.

Lemma raises_from_self {B} e : raises_from e (Exc (A:=B) e).
Proof. exists e. split; [reflexivity|]. left. reflexivity. Qed.

Lemma raises_from_obind {X Y} e (r : outcome X) (k : X -> outcome Y) :
  raises_from e r -> raises_from e (obind r k).
Proof. intros [e' [-> Hp]]. exists e'. split; [reflexivity|exact Hp]. Qed.

Lemma retried_call_propagates {B} cls prefix (m : operation B) e :
  fst (with_retry_default m) = Exc e -> raises_from e (fst (retried_call cls prefix m)).
Proof.
  intros H. unfold retried_call. destruct (with_retry_default m) as [r tr].
  cbn in *. subst r. apply wrap_errors_propagates.
Qed.

Lemma direct_call_propagates {B} cls prefix (m : operation B) e :
  m O = Exc e -> raises_from e (fst (direct_call cls prefix m)).
Proof. intros H. unfold direct_call. cbn. rewrite H. apply wrap_errors_propagates. Qed.

Lemma get_file_content_propagates m read e :
  (fst (with_retry_default m) = Exc e
   \/ exists path, fst (with_retry_default m) = Ret path /\ read path = Exc e) ->
  raises_from e (fst (get_file_content m read)).
Proof.
  intros Hcase. unfold get_file_content.
  destruct (with_retry_default m) as [r tr]. cbn in Hcase.
  destruct Hcase as [Hr|[path [Hr Hread]]]; subst r; cbv beta iota;
    [|rewrite Hread]; apply wrap_errors_propagates.
Qed.

Lemma push_readme_propagates m e :
  fst (with_retry_default m) = Exc e -> raises_from e (fst (push_readme m)).
Proof.
  intros H. unfold push_readme, upload_file_content, retried_call.
  destruct (with_retry_default m) as [r tr]. cbn in H. subst r.
  unfold wrap_errors. destruct (is_Exception (exn_cls e)) eqn:Hx; cbv beta iota.
  - eexists. split; [reflexivity|]. right. split; [reflexivity|].
    exists ("Failed to push README: " ++ "Failed to upload content: ").
    cbn [exn_msg]. rewrite string_app_assoc. reflexivity.
  - destruct (exn_cls e) eqn:Hc; try discriminate Hx; apply raises_from_self.
Qed.

Lemma list_repo_refs_propagates m e :
  fst (with_retry_default m) = Exc e -> raises_from e (fst (list_repo_refs m)).
Proof.
  intros H. unfold list_repo_refs. destruct (with_retry_default m) as [r tr].
  cbn in H. subst r. apply wrap_errors_propagates.
Qed.

Lemma get_repo_info_propagates repo_id t mi di si m e :
  repo_type_dispatch t mi di si = Some m -> fst (with_retry_default m) = Exc e ->
  raises_from e (fst (get_repo_info repo_id t mi di si))
  \/ (exists resp, exn_cls e = RepositoryNotFoundError resp
      /\ fst (get_repo_info repo_id t mi di si)
         = Exc (mkExn (exn_id e) HFRepoError ("Repository not found: " ++ repo_id))).
Proof.
  intros Hd H. unfold get_repo_info. rewrite Hd.
  destruct (with_retry_default m) as [r tr]. cbn in H. subst r.
  destruct (exn_cls e) eqn:Hc;
    try (left; apply wrap_errors_propagates);
    [right; eexists; split; reflexivity|left; apply raises_from_self].
Qed.

Lemma list_repo_files_propagates t mi di si m e :
  repo_type_dispatch t mi di si = Some m -> fst (with_retry_default m) = Exc e ->
  raises_from e (fst (list_repo_files t mi di si)).
Proof.
  intros Hd H. unfold list_repo_files. rewrite list_repo_files_dispatch, Hd.
  destruct (with_retry_default m) as [r tr]. cbn in H. subst r.
  destruct (exn_cls e) eqn:Hc;
    first [apply raises_from_self | apply wrap_errors_propagates].
Qed.

Lemma list_my_repos_propagates t ml dl sl m e :
  repo_type_dispatch t ml dl sl = Some m ->
  (fst (with_retry_default m) = Exc e
   \/ exists items, fst (with_retry_default m) = Ret (items, Some e)) ->
  raises_from e (fst (list_my_repos t ml dl sl)).
Proof.
  intros Hd Hcase. unfold list_my_repos, generator. rewrite Hd.
  destruct (with_retry_default m) as [r tr]. cbn in Hcase.
  destruct Hcase as [H|[items H]]; subst r; [|apply raises_from_self].
  destruct (exn_cls e) eqn:Hc;
    first [apply raises_from_self | apply wrap_errors_propagates].
Qed.

Lemma add_collection_item_propagates {B} m_add (m_get : operation B) e :
  (m_add O = Exc e \/ exists slug, m_add O = Ret slug /\ m_get O = Exc e) ->
  raises_from e (fst (add_collection_item m_add m_get)).
Proof.
  unfold add_collection_item, get_collection, direct_call.
  intros [H|[slug [H Hg]]]; rewrite H; cbv beta iota; [apply wrap_errors_propagates|].
  rewrite Hg. destruct (is_Exception (exn_cls e)) eqn:Hx.
  - unfold wrap_errors at 2. rewrite Hx. cbv beta iota. unfold wrap_errors. cbn [exn_cls]. eexists. split; [reflexivity|].
    right. split; [reflexivity|].
    exists ("Failed to add item: " ++ "Failed to get collection: ").
    cbn [exn_msg]. rewrite string_app_assoc. reflexivity.
  - unfold wrap_errors. rewrite Hx. cbv beta iota. rewrite Hx. cbn [fst].
    apply raises_from_self.
Qed.

Lemma remove_collection_item_propagates {B} m_del (m_get : operation B) e :
  (m_del O = Exc e \/ exists slug, m_del O = Ret slug /\ m_get O = Exc e) ->
  raises_from e (fst (remove_collection_item m_del m_get)).
Proof.
  unfold remove_collection_item, get_collection, direct_call.
  intros [H|[slug [H Hg]]]; rewrite H; cbv beta iota; [apply wrap_errors_propagates|].
  rewrite Hg. destruct (is_Exception (exn_cls e)) eqn:Hx.
  - unfold wrap_errors at 2. rewrite Hx. cbv beta iota. unfold wrap_errors. cbn [exn_cls]. eexists. split; [reflexivity|].
    right. split; [reflexivity|].
    exists ("Failed to remove item: " ++ "Failed to get collection: ").
    cbn [exn_msg]. rewrite string_app_assoc. reflexivity.
  - unfold wrap_errors. rewrite Hx. cbv beta iota. rewrite Hx. cbn [fst].
    apply raises_from_self.
Qed.

Lemma login_propagates token m e :
  py_strip token <> "" -> m O = Exc e -> raises_from e (fst (login token m)).
Proof.
  intros Hne H. unfold login. rewrite (proj2 (String.eqb_neq _ _) Hne).
  unfold direct_call. rewrite H. cbn [fst].
  apply raises_from_obind, wrap_errors_propagates.
Qed.

Lemma obind_exc_inv {X Y} (o : outcome X) (k : X -> outcome Y) (P : exn -> Prop) :
  (forall e, o = Exc e -> P e) -> (forall x e, k x = Exc e -> P e) ->
  forall e, obind o k = Exc e -> P e.
Proof.
  intros Ho Hk e. destruct o as [x|e']; cbn [obind]; [apply Hk|].
  intros H. injection H as <-. apply Ho. reflexivity.
Qed.

Lemma py_get_exc v k d e : py_get v k d = Exc e -> exn_cls e = OtherException "AttributeError".
Proof. destruct v; cbn [py_get]; try discriminate; intros H; injection H as <-; reflexivity. Qed.

Lemma py_iter_exc v e : py_iter v = Exc e -> exn_cls e = TypeError.
Proof. destruct v; cbn [py_iter]; try discriminate; intros H; injection H as <-; reflexivity. Qed.

Lemma py_map_exc {X Y} (f : X -> outcome Y) (P : exn -> Prop) :
  (forall x e, f x = Exc e -> P e) -> forall l e, py_map f l = Exc e -> P e.
Proof.
  intros Hf l. induction l as [|x l IH]; cbn [py_map]; [discriminate|].
  apply obind_exc_inv; [intros e H; exact (Hf x e H)|].
  intros y. apply obind_exc_inv; [exact IH|]. intros ys e H. discriminate H.
Qed.

(** Building a [UserInfo] fails only by [AttributeError] ([.get] on a
    value that is not a dict) or [TypeError] (iterating a value that is
    not iterable). *)
Lemma user_info_of_exc info e :
  user_info_of info = Exc e ->
  exn_cls e = OtherException "AttributeError" \/ exn_cls e = TypeError.
Proof.
  revert e. unfold user_info_of.
  apply obind_exc_inv; [intros e H; left; exact (py_get_exc _ _ _ _ H)|intros orgs_val].
  apply obind_exc_inv; [intros e H; right; exact (py_iter_exc _ _ H)|intros items].
  apply obind_exc_inv;
    [apply py_map_exc; intros o e H; left; exact (py_get_exc _ _ _ _ H)|intros orgs].
  do 4 (apply obind_exc_inv; [intros e H; left; exact (py_get_exc _ _ _ _ H)|intros ?]).
  intros e H. discriminate H.
Qed.

(** ** Backend modules: claims *)



(** C9 (counterexample).  Three backend functions return a normal value in
    place of a failure: [get_readme] returns [""] when every download
    attempt fails with status 503, [whoami] returns [None] when
    [api.whoami()] fails with status 401, and [get_cached_token] returns
    [""] when the token lookup raises [OSError]. *)
Lemma C9_swallowed_failures_counterexample :
  fst (get_readme (always_raise (http_error 0 503)) (fun p => Ret p)) = Ret ""
  /\ fst (whoami (always_raise (http_error 0 401))) = Ret None
  /\ get_cached_token (Exc (mkExn 0 (OtherException "OSError") "permission denied")) = Ret "".
Proof. vm_compute. repeat split. Qed.

(** C9 (amended).  [get_readme], [whoami] and [get_cached_token] catch
    failures by design and return a normal value: [get_readme] returns
    [""] whenever the README download (after its [with_retry] attempts) or
    the read of the downloaded file raises an [Exception]; [whoami] returns
    [None] whenever [api.whoami()] or building the [UserInfo] raises an
    [Exception]; [get_cached_token] returns [""] whenever the token lookup
    raises an [Exception].  Every other backend operation propagates the
    failure of its API call (the last one, after [with_retry]'s attempts
    where it uses [with_retry]) to its caller: the failure itself or a
    domain error raised from it whose message ends with the failure's.
    The one replacement is [get_repo_info]'s: a [RepositoryNotFoundError]
    becomes [HFRepoError("Repository not found: <repo_id>")]. *)
Theorem C9_swallowed_failures :
  (forall m read e,
     (fst (with_retry_default m) = Exc e
      \/ exists path, fst (with_retry_default m) = Ret path /\ read path = Exc e) ->
     is_Exception (exn_cls e) = true ->
     fst (get_readme m read) = Ret "")
  /\ (forall m e,
        (m O = Exc e \/ exists info, m O = Ret info /\ user_info_of info = Exc e) ->
        is_Exception (exn_cls e) = true -> fst (whoami m) = Ret None)
  /\ (forall e, is_Exception (exn_cls e) = true -> get_cached_token (Exc e) = Ret "")
  (* every other operation propagates *)
  /\ (forall m e, fst (with_retry_default m) = Exc e -> raises_from e (fst (create_repo m)))
  /\ (forall m e, fst (with_retry_default m) = Exc e -> raises_from e (fst (delete_repo m)))
  /\ (forall m e, fst (with_retry_default m) = Exc e ->
        raises_from e (fst (update_repo_visibility m)))
  /\ (forall m e, fst (with_retry_default m) = Exc e -> raises_from e (fst (upload_file m)))
  /\ (forall m e, fst (with_retry_default m) = Exc e -> raises_from e (fst (upload_folder m)))
  /\ (forall m e, fst (with_retry_default m) = Exc e -> raises_from e (fst (download_file m)))
  /\ (forall m e, fst (with_retry_default m) = Exc e -> raises_from e (fst (delete_file m)))
  /\ (forall m e, fst (with_retry_default m) = Exc e -> raises_from e (fst (delete_files m)))
  /\ (forall m e, fst (with_retry_default m) = Exc e ->
        raises_from e (fst (upload_file_content m)))
  /\ (forall m read e,
        (fst (with_retry_default m) = Exc e
         \/ exists path, fst (with_retry_default m) = Ret path /\ read path = Exc e) ->
        raises_from e (fst (get_file_content m read)))
  /\ (forall m e, fst (with_retry_default m) = Exc e -> raises_from e (fst (push_readme m)))
  /\ (forall m e, fst (with_retry_default m) = Exc e -> raises_from e (fst (list_repo_refs m)))
  /\ (forall repo_id t mi di si m e,
        repo_type_dispatch t mi di si = Some m -> fst (with_retry_default m) = Exc e ->
        raises_from e (fst (get_repo_info repo_id t mi di si))
        \/ (exists resp, exn_cls e = RepositoryNotFoundError resp
            /\ fst (get_repo_info repo_id t mi di si)
               = Exc (mkExn (exn_id e) HFRepoError ("Repository not found: " ++ repo_id))))
  /\ (forall t mi di si m e,
        repo_type_dispatch t mi di si = Some m -> fst (with_retry_default m) = Exc e ->
        raises_from e (fst (list_repo_files t mi di si)))
  /\ (forall t ml dl sl m e,
        repo_type_dispatch t ml dl sl = Some m ->
        (fst (with_retry_default m) = Exc e
         \/ exists items, fst (with_retry_default m) = Ret (items, Some e)) ->
        raises_from e (fst (list_my_repos t ml dl sl)))
  /\ (forall B (m : operation B) e, m O = Exc e -> raises_from e (fst (list_my_collections m)))
  /\ (forall B (m : operation B) e, m O = Exc e -> raises_from e (fst (get_collection m)))
  /\ (forall B (m : operation B) e, m O = Exc e -> raises_from e (fst (create_collection m)))
  /\ (forall m e, m O = Exc e -> raises_from e (fst (delete_collection m)))
  /\ (forall m e, m O = Exc e -> raises_from e (fst (update_collection_metadata m)))
  /\ (forall B m_add (m_get : operation B) e,
        (m_add O = Exc e \/ exists slug, m_add O = Ret slug /\ m_get O = Exc e) ->
        raises_from e (fst (add_collection_item m_add m_get)))
  /\ (forall B m_del (m_get : operation B) e,
        (m_del O = Exc e \/ exists slug, m_del O = Ret slug /\ m_get O = Exc e) ->
        raises_from e (fst (remove_collection_item m_del m_get)))
  /\ (forall token m e,
        py_strip token <> "" -> m O = Exc e -> raises_from e (fst (login token m))).
Proof.
  split; [|split; [|split]].
  - intros m read e Hcase Hexc.
    pose proof (get_file_content_fails m read e Hcase Hexc) as Hf.
    unfold get_readme. destruct (get_file_content m read) as [r tr].
    cbn in Hf. subst r. reflexivity.
  - intros m e Hcase Hexc. unfold whoami.
    destruct Hcase as [He|[info [He Hu]]]; rewrite He; cbn [obind];
      [|rewrite Hu]; rewrite Hexc; reflexivity.
  - intros e Hexc. cbn. rewrite Hexc. reflexivity.
  - split; [intros m e H; apply retried_call_propagates; exact H|].
    split; [intros m e H; apply retried_call_propagates; exact H|].
    split; [intros m e H; apply retried_call_propagates; exact H|].
    split; [intros m e H; apply retried_call_propagates; exact H|].
    split; [intros m e H; apply retried_call_propagates; exact H|].
    split; [intros m e H; apply retried_call_propagates; exact H|].
    split; [intros m e H; apply retried_call_propagates; exact H|].
    split; [intros m e H; apply retried_call_propagates; exact H|].
    split; [intros m e H; apply retried_call_propagates; exact H|].
    split; [exact @get_file_content_propagates|].
    split; [exact @push_readme_propagates|].
    split; [exact @list_repo_refs_propagates|].
    split; [exact @get_repo_info_propagates|].
    split; [exact @list_repo_files_propagates|].
    split; [exact @list_my_repos_propagates|].
    split; [intros B m e H; apply direct_call_propagates; exact H|].
    split; [intros B m e H; apply direct_call_propagates; exact H|].
    split; [intros B m e H; apply direct_call_propagates; exact H|].
    split; [intros m e H; apply direct_call_propagates; exact H|].
    split; [intros m e H; apply direct_call_propagates; exact H|].
    split; [exact @add_collection_item_propagates|].
    split; [exact @remove_collection_item_propagates|].
    exact @login_propagates.
Qed.

Lemma C9_swallowed_failures_witness :
  fst (get_readme (always_raise (http_error 0 503)) (fun p => Ret p)) = Ret ""
  /\ fst (whoami (always_raise (http_error 0 401))) = Ret None
  /\ get_cached_token (Exc (mkExn 0 (OtherException "OSError") "denied")) = Ret ""
  /\ raises_from (http_error 0 503) (fst (create_repo (always_raise (http_error 0 503))))
  /\ raises_from (mkExn 3 (OtherException "KeyError") "x")
       (fst (login "hf_abc" (always_raise (mkExn 3 (OtherException "KeyError") "x")))).
Proof.
  destruct C9_swallowed_failures as [Hr [Hw [Ht [Hc Hrest]]]].
  split; [|split; [|split; [|split]]].
  - apply (Hr _ _ (http_error 0 503)); [left; vm_compute; reflexivity|reflexivity].
  - apply (Hw _ (http_error 0 401)); [left; reflexivity|reflexivity].
  - apply Ht. reflexivity.
  - apply Hc. vm_compute. reflexivity.
  - repeat match type of Hrest with _ /\ _ => destruct Hrest as [_ Hrest] end.
    apply Hrest; [vm_compute; discriminate|reflexivity].
Defined.

Example yaml_quote_ex :
  _yaml_quote "yes" = str1 dq ++ "yes" ++ str1 dq
  /\ _yaml_quote "bert" = "bert"
  /\ _yaml_quote " a" = str1 dq ++ " a" ++ str1 dq
  /\ _yaml_quote ("a" ++ str1 dq) = str1 dq ++ "a" ++ str1 bs ++ str1 dq ++ str1 dq.
Proof. vm_compute. repeat split. Qed.

(** ** Model cards: lemmas *)

Lemma str_app_assoc (a b c : string) : (a ++ b) ++ c = a ++ b ++ c.
Proof. induction a as [|x a IH]; cbn; [reflexivity|now rewrite IH]. Qed.

Lemma str_app_nil_r (a : string) : a ++ "" = a.
Proof. induction a as [|x a IH]; cbn; [reflexivity|now rewrite IH]. Qed.

Lemma list_ascii_app (a b : string) :
  list_ascii_of_string (a ++ b) = (list_ascii_of_string a ++ list_ascii_of_string b)%list.
Proof. induction a as [|x a IH]; cbn; [reflexivity|now rewrite IH]. Qed.

Lemma has_char_app c a b : has_char c (a ++ b) = has_char c a || has_char c b.
Proof. unfold has_char. rewrite list_ascii_app, existsb_app. reflexivity. Qed.

Lemma py_replace1_app o n a b :
  py_replace1 o n (a ++ b) = py_replace1 o n a ++ py_replace1 o n b.
Proof.
  induction a as [|x a IH]; cbn; [reflexivity|]. rewrite IH, str_app_assoc. reflexivity.
Qed.

Lemma yaml_escape_cons c v : _yaml_escape (String c v) = escape_char c ++ _yaml_escape v.
Proof.
  unfold _yaml_escape, escape_char. cbn [py_replace1].
  rewrite !py_replace1_app.
  destruct (Ascii.eqb c bs) eqn:Hbs.
  - apply Ascii.eqb_eq in Hbs. subst c. reflexivity.
  - destruct (Ascii.eqb c dq) eqn:Hdq.
    + apply Ascii.eqb_eq in Hdq. subst c. reflexivity.
    + destruct (Ascii.eqb c nl) eqn:Hnl.
      * apply Ascii.eqb_eq in Hnl. subst c. reflexivity.
      * destruct (Ascii.eqb c cr) eqn:Hcr.
        -- apply Ascii.eqb_eq in Hcr. subst c. reflexivity.
        -- repeat progress (unfold str1; cbn [py_replace1 append]; rewrite ?Hdq, ?Hnl, ?Hcr). reflexivity.
Qed.

Lemma unescape_escape_char c rest :
  yaml_dq_unescape (escape_char c ++ rest) = option_map (String c) (yaml_dq_unescape rest).
Proof.
  unfold escape_char.
  destruct (Ascii.eqb c bs) eqn:Hbs.
  { apply Ascii.eqb_eq in Hbs. subst c. cbn. destruct (yaml_dq_unescape rest); reflexivity. }
  destruct (Ascii.eqb c dq) eqn:Hdq.
  { apply Ascii.eqb_eq in Hdq. subst c. cbn. destruct (yaml_dq_unescape rest); reflexivity. }
  destruct (Ascii.eqb c nl) eqn:Hnl.
  { apply Ascii.eqb_eq in Hnl. subst c. cbn. destruct (yaml_dq_unescape rest); reflexivity. }
  destruct (Ascii.eqb c cr) eqn:Hcr.
  { apply Ascii.eqb_eq in Hcr. subst c. cbn. destruct (yaml_dq_unescape rest); reflexivity. }
  unfold str1. cbn [append yaml_dq_unescape]. rewrite Hbs, Hdq, Hnl, Hcr. reflexivity.
Qed.

Lemma unescape_yaml_escape v : yaml_dq_unescape (_yaml_escape v) = Some v.
Proof.
  induction v as [|c v IH]; [reflexivity|].
  rewrite yaml_escape_cons, unescape_escape_char, IH. reflexivity.
Qed.

Lemma escape_char_no_break c :
  has_char nl (escape_char c) = false /\ has_char cr (escape_char c) = false.
Proof.
  unfold escape_char.
  destruct (Ascii.eqb c bs) eqn:Hbs; [split; reflexivity|].
  destruct (Ascii.eqb c dq) eqn:Hdq; [split; reflexivity|].
  destruct (Ascii.eqb c nl) eqn:Hnl; [split; reflexivity|].
  destruct (Ascii.eqb c cr) eqn:Hcr; [split; reflexivity|].
  unfold has_char, str1. cbn [list_ascii_of_string existsb].
  rewrite (Ascii.eqb_sym nl), (Ascii.eqb_sym cr), Hnl, Hcr.
  split; reflexivity.
Qed.

Lemma yaml_escape_no_break v :
  has_char nl (_yaml_escape v) = false /\ has_char cr (_yaml_escape v) = false.
Proof.
  induction v as [|c v [IH1 IH2]]; [split; reflexivity|].
  rewrite yaml_escape_cons, !has_char_app.
  destruct (escape_char_no_break c) as [H1 H2]. rewrite H1, H2, IH1, IH2. split; reflexivity.
Qed.

Lemma no_special_no_char c v :
  is_yaml_special c = true -> existsb is_yaml_special (list_ascii_of_string v) = false ->
  has_char c v = false.
Proof.
  intros Hc Hv. unfold has_char. apply Bool.not_true_iff_false. intros Hin.
  apply existsb_exists in Hin as [x [Hx Heq]]. apply Ascii.eqb_eq in Heq. subst x.
  apply Bool.not_true_iff_false in Hv. apply Hv. apply existsb_exists. exists c. split; assumption.
Qed.

(** ** Model cards: properties *)

Lemma yaml_quote_no_break (v : string) :
  has_char nl (_yaml_quote v) = false /\ has_char cr (_yaml_quote v) = false.
Proof.
  unfold _yaml_quote. destruct (String.eqb v "") eqn:He; [split; reflexivity|].
  destruct (needs_quotes v) eqn:Hq.
  - rewrite !has_char_app. destruct (yaml_escape_no_break v) as [H1 H2].
    rewrite H1, H2. split; reflexivity.
  - unfold needs_quotes in Hq. apply Bool.orb_false_iff in Hq as [Hq _].
    apply Bool.orb_false_iff in Hq as [Hs _].
    split; apply no_special_no_char; try reflexivity; exact Hs.
Qed.

(** [_yaml_quote] never produces a line feed or a carriage return, whatever
    its input: each value stays on its own line of the frontmatter. *)
Theorem yaml_quote_single_line (v : string) :
  has_char nl (_yaml_quote v) = false /\ has_char cr (_yaml_quote v) = false.
Proof. exact (yaml_quote_no_break v). Qed.

(** [_yaml_quote v] is either [v] itself, and then [v] is a safe plain
    scalar (non-empty, without any [_YAML_SPECIAL] character, without
    surrounding whitespace, and not a YAML boolean word in any case), or a
    double-quoted scalar whose body decodes back to exactly [v]. *)
Theorem yaml_quote_roundtrip (v : string) :
  (_yaml_quote v = v /\ v <> ""
   /\ existsb is_yaml_special (list_ascii_of_string v) = false
   /\ py_strip v = v
   /\ existsb (String.eqb (py_lower v)) _YAML_BOOLS = false)
  \/ (exists body, _yaml_quote v = str1 dq ++ body ++ str1 dq
                   /\ yaml_dq_unescape body = Some v).
Proof.
  unfold _yaml_quote. destruct (String.eqb v "") eqn:He.
  { apply String.eqb_eq in He. subst v. right. exists "". split; reflexivity. }
  destruct (needs_quotes v) eqn:Hq.
  { right. exists (_yaml_escape v). split; [reflexivity|apply unescape_yaml_escape]. }
  left. unfold needs_quotes in Hq.
  apply Bool.orb_false_iff in Hq as [Hq Hb].
  apply Bool.orb_false_iff in Hq as [Hs Hst].
  apply Bool.negb_false_iff, String.eqb_eq in Hst.
  apply String.eqb_neq in He.
  repeat split; assumption.
Qed.

Lemma split_nl_nonempty s : split_nl s <> [].
Proof.
  destruct s as [|c s]; cbn [split_nl]; [discriminate|].
  destruct (Ascii.eqb c nl); [discriminate|]. destruct (split_nl s); discriminate.
Qed.

Lemma split_nl_app a r : has_char nl a = false ->
  split_nl (a ++ r) = match split_nl r with [] => [a] | x :: xs => (a ++ x) :: xs end.
Proof.
  induction a as [|c a IH]; intros Ha.
  - cbn. destruct (split_nl r) eqn:E; [exfalso; exact (split_nl_nonempty r E)|reflexivity].
  - unfold has_char in Ha. cbn [list_ascii_of_string existsb append] in Ha.
    apply Bool.orb_false_iff in Ha as [Hc Ha].
    cbn [append split_nl]. rewrite Ascii.eqb_sym, Hc. rewrite (IH Ha).
    destruct (split_nl r); reflexivity.
Qed.

Lemma split_nl_concat xs : xs <> [] -> Forall (fun l => has_char nl l = false) xs ->
  split_nl (String.concat (str1 nl) xs) = xs.
Proof.
  induction xs as [|x xs IH]; intros Hne Hall; [contradiction|].
  inversion Hall as [|? ? Hx Hxs]; subst.
  destruct xs as [|y ys].
  - cbn [String.concat]. rewrite <- (str_app_nil_r x) at 1.
    rewrite (split_nl_app x "" Hx). cbn. rewrite str_app_nil_r. reflexivity.
  - change (String.concat (str1 nl) (x :: y :: ys))
      with (x ++ String nl (String.concat (str1 nl) (y :: ys))).
    rewrite (split_nl_app x _ Hx). cbn [split_nl]. rewrite Ascii.eqb_refl.
    rewrite (IH ltac:(discriminate) Hxs), str_app_nil_r. reflexivity.
Qed.

Lemma colon_not_delim a b : has_char (chr 58) (a ++ ":" ++ b) = true -> a ++ ":" ++ b <> "---".
Proof. intros H E. rewrite E in H. discriminate H. Qed.

Lemma has_colon a b : has_char (chr 58) (a ++ ":" ++ b) = true.
Proof. rewrite !has_char_app. apply Bool.orb_true_iff. right. reflexivity. Qed.

Lemma kv_line_ok k q : has_char nl k = false -> has_char nl q = false ->
  has_char nl (k ++ ": " ++ q) = false /\ k ++ ": " ++ q <> "---".
Proof.
  intros Hk Hq. split.
  - rewrite !has_char_app, Hk, Hq. reflexivity.
  - apply colon_not_delim, has_colon.
Qed.

Lemma key_line_ok k : has_char nl k = false ->
  has_char nl (k ++ ":") = false /\ k ++ ":" <> "---".
Proof.
  intros Hk. split.
  - rewrite has_char_app, Hk. reflexivity.
  - rewrite <- (str_app_nil_r ":"). apply colon_not_delim, has_colon.
Qed.

Lemma item_line_ok q : has_char nl q = false ->
  has_char nl ("  - " ++ q) = false /\ "  - " ++ q <> "---".
Proof.
  intros Hq. split.
  - rewrite has_char_app, Hq. reflexivity.
  - cbn. discriminate.
Qed.

Lemma field_lines_ok name v : has_char nl name = false ->
  Forall yaml_line_ok (field_lines name v).
Proof.
  intros Hn. unfold field_lines. destruct (String.eqb v ""); constructor; [|constructor].
  apply kv_line_ok; [exact Hn|apply yaml_quote_no_break].
Qed.

Lemma items_ok xs : Forall yaml_line_ok (map (fun t => "  - " ++ _yaml_quote t) xs).
Proof.
  apply Forall_forall. intros l Hl. apply in_map_iff in Hl as [t [<- _]].
  apply item_line_ok, yaml_quote_no_break.
Qed.

Lemma list_lines_ok header xs : has_char nl header = false ->
  Forall yaml_line_ok (list_lines header xs).
Proof.
  intros Hh. unfold list_lines. destruct xs as [|x xs]; [constructor|].
  constructor; [apply key_line_ok, Hh|apply (items_ok (x :: xs))].
Qed.

Lemma extra_lines_ok extra : (forall kv, In kv extra -> has_char nl (fst kv) = false) ->
  Forall yaml_line_ok (extra_lines extra).
Proof.
  intros Hk. unfold extra_lines. apply Forall_forall. intros l Hl.
  apply in_flat_map in Hl as [kv [Hin Hl]]. specialize (Hk kv Hin).
  destruct (snd kv) as [items|v].
  - destruct Hl as [<-|Hl]; [apply key_line_ok, Hk|].
    exact (proj1 (Forall_forall _ _) (items_ok items) l Hl).
  - destruct Hl as [<-|[]]. apply kv_line_ok; [exact Hk|apply yaml_quote_no_break].
Qed.

(** [generate_model_card_yaml] produces a well-delimited frontmatter: when
    no key of [extra_metadata] contains a line feed, its lines are the
    opening [---], then lines none of which is [---], then the closing
    [---]; so a YAML reader sees exactly the generated block. *)
Theorem model_card_yaml_frontmatter language license library_name pipeline_tag
    tags base_model datasets extra :
  (forall kv, In kv extra -> has_char nl (fst kv) = false) ->
  exists body,
    split_nl (generate_model_card_yaml language license library_name pipeline_tag
                tags base_model datasets extra) = "---" :: body ++ ["---"]
    /\ ~ In "---" body.
Proof.
  intros Hk.
  set (body := (field_lines "language" language ++ field_lines "license" license
               ++ field_lines "library_name" library_name
               ++ field_lines "pipeline_tag" pipeline_tag
               ++ field_lines "base_model" base_model
               ++ list_lines "tags" tags ++ list_lines "datasets" datasets
               ++ extra_lines extra)%list).
  assert (Hb : Forall yaml_line_ok body).
  { unfold body. repeat (apply Forall_app; split);
      try (apply field_lines_ok; reflexivity); try (apply list_lines_ok; reflexivity).
    apply extra_lines_ok, Hk. }
  exists body. split.
  - unfold generate_model_card_yaml.
    assert (Hl : model_card_yaml_lines language license library_name pipeline_tag
                   tags base_model datasets extra = "---" :: body ++ ["---"]).
    { unfold model_card_yaml_lines, body. cbn [app]. rewrite <- !app_assoc. reflexivity. }
    rewrite Hl. apply split_nl_concat; [discriminate|].
    constructor; [reflexivity|]. apply Forall_app. split.
    + apply Forall_forall. intros l Hl'. exact (proj1 (proj1 (Forall_forall _ _) Hb l Hl')).
    + constructor; [reflexivity|constructor].
  - intros Hin. exact (proj2 (proj1 (Forall_forall _ _) Hb _ Hin) eq_refl).
Qed.

Lemma model_card_yaml_frontmatter_witness :
  (forall kv, In kv [("model-index", MScalar "x: y"); ("widget", MList ["a"; "b"])] ->
              has_char nl (fst kv) = false) /\
  exists body,
    split_nl (generate_model_card_yaml "en" "mit" "" "" ["nlp"] "" []
                [("model-index", MScalar "x: y"); ("widget", MList ["a"; "b"])])
    = "---" :: body ++ ["---"] /\ ~ In "---" body.
Proof.
  assert (H : forall kv, In kv [("model-index", MScalar "x: y"); ("widget", MList ["a"; "b"])] ->
              has_char nl (fst kv) = false).
  { intros kv [<-|[<-|[]]]; reflexivity. }
  split; [exact H|]. apply model_card_yaml_frontmatter. exact H.
Defined.

Lemma concat_app sep xs ys : xs <> [] -> ys <> [] ->
  String.concat sep (xs ++ ys) = String.concat sep xs ++ sep ++ String.concat sep ys.
Proof.
  induction xs as [|x xs IH]; intros Hx Hy; [contradiction|].
  destruct xs as [|x' xs].
  - cbn [app]. destruct ys as [|y ys]; [contradiction|]. reflexivity.
  - change (String.concat sep ((x :: x' :: xs) ++ ys))
      with (x ++ sep ++ String.concat sep ((x' :: xs) ++ ys)).
    rewrite (IH ltac:(discriminate) Hy).
    change (String.concat sep (x :: x' :: xs)) with (x ++ sep ++ String.concat sep (x' :: xs)).
    rewrite !str_app_assoc. reflexivity.
Qed.

Lemma concat_app_section L title body : L <> [] ->
  String.concat (str1 nl) (L ++ section_lines title body)
  = String.concat (str1 nl) L ++ section_text title body.
Proof.
  intros HL. unfold section_lines, section_text.
  destruct (String.eqb body ""); [rewrite app_nil_r, str_app_nil_r; reflexivity|].
  rewrite concat_app by (assumption || discriminate).
  cbn [String.concat]. rewrite !str_app_assoc, str_app_nil_r. reflexivity.
Qed.

(** The text of [generate_model_card]: the YAML frontmatter, an empty line,
    the [# model_name] title line, then, in order, one block
    [\n## Title\n\nbody\n] per non-empty section; empty sections add
    nothing. *)
Theorem model_card_layout model_name language license library_name pipeline_tag
    tags base_model datasets model_description intended_use training_details
    evaluation limitations extra :
  generate_model_card model_name language license library_name pipeline_tag
    tags base_model datasets model_description intended_use training_details
    evaluation limitations extra
  = generate_model_card_yaml language license library_name pipeline_tag
      tags base_model datasets extra
    ++ str1 nl ++ str1 nl ++ "# " ++ model_name ++ str1 nl
    ++ section_text "Model Description" model_description
    ++ section_text "Intended Use" intended_use
    ++ section_text "Training Details" training_details
    ++ section_text "Evaluation" evaluation
    ++ section_text "Limitations and Biases" limitations.
Proof.
  unfold generate_model_card.
  rewrite !app_assoc.
  rewrite !concat_app_section by (let E := fresh in intro E; repeat (apply app_eq_nil in E as [E _]); discriminate).
  cbn [String.concat append]. rewrite ?str_app_nil_r, !str_app_assoc. cbn [append]. rewrite !str_app_assoc. reflexivity.
Qed.

(** ** [list_repo_files]: lemmas *)

Lemma str_ltb_lt a b : String.ltb a b = true <-> OrderedTypeEx.String_as_OT.lt a b.
Proof.
  rewrite <- OrderedTypeEx.String_as_OT.cmp_lt. unfold String.ltb.
  change OrderedTypeEx.String_as_OT.cmp with String.compare.
  destruct (String.compare a b); split; congruence.
Qed.

Lemma str_leb_cases a b : String.leb a b = true -> a = b \/ String.ltb a b = true.
Proof.
  unfold String.leb, String.ltb. intros H.
  destruct (String.compare a b) eqn:E; [|auto|discriminate].
  left. apply String.compare_eq_iff, E.
Qed.

Lemma str_ltb_leb a b : String.ltb a b = true -> String.leb a b = true.
Proof. unfold String.leb, String.ltb. destruct (String.compare a b); congruence. Qed.

Lemma str_not_ltb_leb a b : String.ltb a b = false -> String.leb b a = true.
Proof.
  unfold String.leb, String.ltb. rewrite String.compare_antisym.
  destruct (String.compare b a); cbn; congruence.
Qed.

Lemma str_ltb_trans a b c : String.ltb a b = true -> String.ltb b c = true -> String.ltb a c = true.
Proof.
  rewrite !str_ltb_lt. apply OrderedTypeEx.String_as_OT.lt_trans.
Qed.

Lemma str_ltb_irrefl a : String.ltb a a = false.
Proof.
  destruct (String.ltb a a) eqn:E; [|reflexivity].
  apply str_ltb_lt, OrderedTypeEx.String_as_OT.lt_not_eq in E. now destruct E.
Qed.

Lemma str_ltb_leb_trans a b c : String.ltb a b = true -> String.leb b c = true -> String.ltb a c = true.
Proof.
  intros H1 H2. destruct (str_leb_cases _ _ H2) as [<-|H]; [exact H1|].
  eapply str_ltb_trans; eassumption.
Qed.

Lemma str_leb_trans a b c : String.leb a b = true -> String.leb b c = true -> String.leb a c = true.
Proof.
  intros H1 H2. destruct (str_leb_cases _ _ H1) as [<-|H]; [exact H2|].
  apply str_ltb_leb. eapply str_ltb_leb_trans; eassumption.
Qed.

Lemma key_le_trans : Transitive key_le.
Proof. intros a b c. apply str_leb_trans. Qed.

Lemma insert_by_key_hd x e l : HdRel key_le x l -> key_le x e -> HdRel key_le x (insert_by_key e l).
Proof.
  intros Hl Hx. destruct l as [|y l]; cbn [insert_by_key].
  - constructor. exact Hx.
  - destruct (String.ltb (file_key e) (file_key y)); constructor; [exact Hx|].
    inversion Hl; assumption.
Qed.

Lemma insert_by_key_sorted e l : Sorted key_le l -> Sorted key_le (insert_by_key e l).
Proof.
  induction l as [|x l IH]; intros Hs; cbn [insert_by_key].
  - repeat constructor.
  - inversion Hs as [|? ? Hl Hhd]; subst.
    destruct (String.ltb (file_key e) (file_key x)) eqn:E.
    + constructor; [exact Hs|]. constructor. apply str_ltb_leb, E.
    + constructor; [apply IH, Hl|]. apply insert_by_key_hd; [exact Hhd|].
      apply str_not_ltb_leb, E.
Qed.

Lemma insert_by_key_perm e l : Permutation (insert_by_key e l) (e :: l).
Proof.
  induction l as [|x l IH]; cbn [insert_by_key]; [reflexivity|].
  destruct (String.ltb (file_key e) (file_key x)); [reflexivity|].
  rewrite IH. apply perm_swap.
Qed.

Lemma filter_key_above a ys : Forall (fun y => String.ltb a (file_key y) = true) ys ->
  filter (key_is a) ys = [].
Proof.
  induction ys as [|y ys IH]; intros Hall; [reflexivity|].
  inversion Hall as [|? ? Hy Hys]; subst. cbn [filter]. unfold key_is at 1.
  destruct (String.eqb (file_key y) a) eqn:Ey.
  - apply String.eqb_eq in Ey. rewrite Ey, str_ltb_irrefl in Hy. discriminate.
  - apply IH, Hys.
Qed.

Lemma insert_by_key_filter k e l : Sorted key_le l ->
  filter (key_is k) (insert_by_key e l) = (filter (key_is k) l ++ filter (key_is k) [e])%list.
Proof.
  induction l as [|x l IH]; intros Hs; cbn [insert_by_key]; [reflexivity|].
  destruct (String.ltb (file_key e) (file_key x)) eqn:E.
  - assert (Hall : Forall (fun y => String.ltb (file_key e) (file_key y) = true) (x :: l)).
    { constructor; [exact E|].
      apply Sorted_extends in Hs; [|exact key_le_trans].
      eapply Forall_impl; [|exact Hs]. intros y Hy. eapply str_ltb_leb_trans; eassumption. }
    cbn [filter]. destruct (key_is k e) eqn:Ek.
    + unfold key_is in Ek. apply String.eqb_eq in Ek. subst k.
      apply filter_key_above in Hall. cbn [filter] in Hall. rewrite Hall. reflexivity.
    + rewrite app_nil_r. reflexivity.
  - inversion Hs; subst. cbn [filter]. rewrite IH by assumption.
    destruct (key_is k x); reflexivity.
Qed.

Lemma sort_by_key_fold l acc : Sorted key_le acc ->
  Sorted key_le (fold_left (fun acc e => insert_by_key e acc) l acc)
  /\ Permutation (fold_left (fun acc e => insert_by_key e acc) l acc) (l ++ acc)%list
  /\ forall k, filter (key_is k) (fold_left (fun acc e => insert_by_key e acc) l acc)
               = (filter (key_is k) acc ++ filter (key_is k) l)%list.
Proof.
  revert acc. induction l as [|x l IH]; intros acc Hs; cbn [fold_left].
  - split; [exact Hs|]. split; [reflexivity|]. intros k. rewrite app_nil_r. reflexivity.
  - destruct (IH (insert_by_key x acc) (insert_by_key_sorted x acc Hs)) as (H1 & H2 & H3).
    split; [exact H1|]. split.
    + rewrite H2, insert_by_key_perm. apply Permutation_sym, Permutation_middle.
    + intros k. rewrite H3, insert_by_key_filter by exact Hs.
      rewrite <- app_assoc. cbn [filter]. destruct (key_is k x); reflexivity.
Qed.

(** [sorted(entries, key=lambda e: e.rfilename.lower())]: the result is
    ordered by the lower-cased file name, holds the same entries, and keeps
    entries whose keys are equal in their original order (a stable sort). *)
Lemma sort_by_key_spec l :
  Sorted key_le (sort_by_key l)
  /\ Permutation (sort_by_key l) l
  /\ forall k, filter (key_is k) (sort_by_key l) = filter (key_is k) l.
Proof.
  destruct (sort_by_key_fold l [] (Sorted_nil _)) as (H1 & H2 & H3).
  unfold sort_by_key. split; [exact H1|]. split.
  - rewrite H2, app_nil_r. reflexivity.
  - intros k. rewrite H3. reflexivity.
Qed.

(** Files returned by [list_repo_files] are exactly the [siblings] of the
    info that the method matching [repo_type] returned through [with_retry]
    ([[]] when absent), one entry per sibling, ordered by lower-cased file
    name, entries with equal keys kept in the listing's order. *)
Theorem list_repo_files_ok repo_type mi di si es tr :
  list_repo_files repo_type mi di si = (Ret es, tr) ->
  exists m siblings,
    In (repo_type, m) [("model", mi); ("dataset", di); ("space", si)]
    /\ with_retry_default m = (Ret siblings, tr)
    /\ let sibs := match siblings with Some l => l | None => [] end in
       Sorted key_le es
       /\ Permutation es (map entry_of sibs)
       /\ forall k, filter (key_is k) es = filter (key_is k) (map entry_of sibs).
Proof.
  unfold list_repo_files.
  assert (Hm : forall m, In (repo_type, m) [("model", mi); ("dataset", di); ("space", si)] ->
    (let (r, tr0) := with_retry_default m in
     match r with
     | Ret siblings =>
         (Ret (sort_by_key (map entry_of match siblings with Some l => l | None => [] end)), tr0)
     | Exc e =>
         match exn_cls e with
         | HFRepoError => (Exc e, tr0)
         | _ => (wrap_errors HFRepoError "Failed to list files: " (Exc e), tr0)
         end
     end) = (Ret es, tr) ->
    exists m siblings,
    In (repo_type, m) [("model", mi); ("dataset", di); ("space", si)]
    /\ with_retry_default m = (Ret siblings, tr)
    /\ let sibs := match siblings with Some l => l | None => [] end in
       Sorted key_le es
       /\ Permutation es (map entry_of sibs)
       /\ forall k, filter (key_is k) es = filter (key_is k) (map entry_of sibs)).
  { intros m Hin H. destruct (with_retry_default m) as [[siblings|e] tr0] eqn:W.
    - injection H as <- <-. exists m, siblings. split; [exact Hin|]. split; [exact W|].
      apply sort_by_key_spec.
    - destruct (exn_cls e); try discriminate H.
      all: unfold wrap_errors in H; destruct (is_Exception _); discriminate H. }
  destruct (String.eqb repo_type "model") eqn:E1;
    [apply String.eqb_eq in E1; subst; apply Hm; left; reflexivity|].
  destruct (String.eqb repo_type "dataset") eqn:E2;
    [apply String.eqb_eq in E2; subst; apply Hm; right; left; reflexivity|].
  destruct (String.eqb repo_type "space") eqn:E3;
    [apply String.eqb_eq in E3; subst; apply Hm; right; right; left; reflexivity|].
  discriminate.
Qed.

Lemma list_repo_files_ok_witness :
  list_repo_files "model"
    (fun _ => Ret (Some [mkSibling "b.txt" None None None;
                         mkSibling "A.txt" (Some 3%Z) (Some "x") (Some [("sha256", "0")])]))
    (fun _ => Ret None) (fun _ => Ret None)
  = (Ret [mkRepoFileEntry "A.txt" 3 "x" true; mkRepoFileEntry "b.txt" 0 "" false], [Invoke])
  /\ exists m siblings,
    In ("model", m) [("model", fun _ => Ret (Some [mkSibling "b.txt" None None None;
                         mkSibling "A.txt" (Some 3%Z) (Some "x") (Some [("sha256", "0")])]));
                     ("dataset", fun _ => Ret None); ("space", fun _ => Ret None)]
    /\ with_retry_default m = (Ret siblings, [Invoke])
    /\ let sibs := match siblings with Some l => l | None => [] end in
       Sorted key_le [mkRepoFileEntry "A.txt" 3 "x" true; mkRepoFileEntry "b.txt" 0 "" false]
       /\ Permutation [mkRepoFileEntry "A.txt" 3 "x" true; mkRepoFileEntry "b.txt" 0 "" false]
            (map entry_of sibs)
       /\ forall k, filter (key_is k) [mkRepoFileEntry "A.txt" 3 "x" true; mkRepoFileEntry "b.txt" 0 "" false]
                    = filter (key_is k) (map entry_of sibs).
Proof.
  split; [vm_compute; reflexivity|].
  apply list_repo_files_ok. vm_compute. reflexivity.
Defined.

(** ** Error classes of the backend functions *)

Lemma wrap_errors_only {B} cls prefix (r : outcome B) : raises_only cls (wrap_errors cls prefix r).
Proof.
  destruct r as [v|e]; cbn; [exact I|].
  destruct (is_Exception (exn_cls e)) eqn:E; cbn; auto.
Qed.

Lemma retried_call_only {B} cls prefix (m : operation B) : raises_only cls (fst (retried_call cls prefix m)).
Proof.
  unfold retried_call. destruct (with_retry_default m). apply wrap_errors_only.
Qed.

Lemma direct_call_only {B} cls prefix (m : operation B) : raises_only cls (fst (direct_call cls prefix m)).
Proof. apply wrap_errors_only. Qed.

Lemma get_file_content_only m read : raises_only HFFileError (fst (get_file_content m read)).
Proof.
  unfold get_file_content. destruct (with_retry_default m) as [[p|e] tr]; apply wrap_errors_only.
Qed.

(** hf_repos.py: [create_repo], [delete_repo], [update_repo_visibility] and
    [list_repo_files] raise only [HFRepoError], apart from exceptions that
    are not [Exception]s (which no [except Exception] catches). *)
Theorem repos_raise_only_HFRepoError :
  (forall m, raises_only HFRepoError (fst (create_repo m)))
  /\ (forall m, raises_only HFRepoError (fst (delete_repo m)))
  /\ (forall m, raises_only HFRepoError (fst (update_repo_visibility m)))
  /\ (forall t mi di si, raises_only HFRepoError (fst (list_repo_files t mi di si))).
Proof.
  split; [intros; apply retried_call_only|].
  split; [intros; apply retried_call_only|].
  split; [intros; apply retried_call_only|].
  intros t mi di si. unfold list_repo_files.
  assert (Hm : forall m, raises_only HFRepoError (fst
    (let (r, tr0) := with_retry_default m in
     match r with
     | Ret siblings =>
         (Ret (sort_by_key (map entry_of match siblings with Some l => l | None => [] end)), tr0)
     | Exc e =>
         match exn_cls e with
         | HFRepoError => (Exc e, tr0)
         | _ => (wrap_errors HFRepoError "Failed to list files: " (Exc e), tr0)
         end
     end))).
  { intros m. destruct (with_retry_default m) as [[siblings|e] tr0]; [exact I|].
    destruct (exn_cls e) eqn:E; try apply wrap_errors_only. left. exact E. }
  destruct (String.eqb t "model"); [apply Hm|].
  destruct (String.eqb t "dataset"); [apply Hm|].
  destruct (String.eqb t "space"); [apply Hm|].
  cbn. left. reflexivity.
Qed.

(** hf_files.py: every function raises only [HFFileError], apart from
    exceptions that are not [Exception]s. *)
Theorem files_raise_only_HFFileError :
  (forall m, raises_only HFFileError (fst (upload_file m)))
  /\ (forall m, raises_only HFFileError (fst (upload_folder m)))
  /\ (forall m, raises_only HFFileError (fst (download_file m)))
  /\ (forall m, raises_only HFFileError (fst (delete_file m)))
  /\ (forall m, raises_only HFFileError (fst (delete_files m)))
  /\ (forall m, raises_only HFFileError (fst (upload_file_content m)))
  /\ (forall m read, raises_only HFFileError (fst (get_file_content m read))).
Proof.
  repeat split; intros; try apply retried_call_only. apply get_file_content_only.
Qed.

(** hf_collections.py: every function raises only [HFCollectionError],
    apart from exceptions that are not [Exception]s. *)
Theorem collections_raise_only_HFCollectionError {B} :
  (forall m : operation B, raises_only HFCollectionError (fst (list_my_collections m)))
  /\ (forall m : operation B, raises_only HFCollectionError (fst (get_collection m)))
  /\ (forall m : operation B, raises_only HFCollectionError (fst (create_collection m)))
  /\ (forall m, raises_only HFCollectionError (fst (delete_collection m)))
  /\ (forall m, raises_only HFCollectionError (fst (update_collection_metadata m)))
  /\ (forall m (g : operation B), raises_only HFCollectionError (fst (add_collection_item m g)))
  /\ (forall m (g : operation B), raises_only HFCollectionError (fst (remove_collection_item m g))).
Proof.
  repeat split; intros; try apply direct_call_only.
  - unfold add_collection_item. destruct (m O); [destruct (get_collection g)|]; apply wrap_errors_only.
  - unfold remove_collection_item. destruct (m O); [destruct (get_collection g)|]; apply wrap_errors_only.
Qed.

(** hf_auth.py and hf_model_card.py: [login] raises [HFAuthError], or,
    when [api.whoami()] succeeded, the [AttributeError] or [TypeError] of
    building the [UserInfo] from a payload of the wrong shape (outside the
    [try], so unwrapped); [push_readme] raises only [HFModelCardError];
    [whoami], [get_cached_token] and [get_readme] raise no [Exception] at
    all ([None], [""] and [""] stand for a failure); exceptions that are
    not [Exception]s pass through all of them. *)
Theorem auth_model_card_error_classes :
  (forall token m,
     match fst (login token m) with
     | Ret _ => True
     | Exc e => exn_cls e = HFAuthError \/ is_Exception (exn_cls e) = false
                \/ (exists info, m O = Ret info /\ user_info_of info = Exc e
                    /\ (exn_cls e = OtherException "AttributeError" \/ exn_cls e = TypeError))
     end)
  /\ (forall m, raises_no_Exception (fst (whoami m)))
  /\ (forall r, raises_no_Exception (get_cached_token r))
  /\ (forall m read, raises_no_Exception (fst (get_readme m read)))
  /\ (forall m, raises_only HFModelCardError (fst (push_readme m))).
Proof.
  split; [|split; [|split; [|split]]].
  - intros token m. unfold login. destruct (String.eqb (py_strip token) "").
    + left. reflexivity.
    + unfold direct_call. cbn [fst].
      destruct (m O) as [info|e0] eqn:Hm; cbn [wrap_errors obind].
      * destruct (user_info_of info) as [u|e] eqn:Hu; [exact I|].
        right; right. exists info. split; [first [reflexivity|exact Hm]|].
        split; [exact Hu|exact (user_info_of_exc info e Hu)].
      * destruct (is_Exception (exn_cls e0)) eqn:Hx; cbn [obind];
          [left; reflexivity|right; left; exact Hx].
  - intros m. unfold whoami. destruct (obind (m O) user_info_of) as [v|e]; [exact I|].
    destruct (is_Exception (exn_cls e)) eqn:E; cbn; [exact I|exact E].
  - intros [[t|]|e]; cbn; try exact I.
    destruct (is_Exception (exn_cls e)) eqn:E; cbn; [exact I|exact E].
  - intros m read. unfold get_readme.
    pose proof (get_file_content_only m read) as H.
    destruct (get_file_content m read) as [[s|e] tr]; [exact I|].
    cbn in H. destruct H as [H|H]; [rewrite H; exact I|].
    revert H; destruct (exn_cls e) eqn:E; intros Hx; cbn; rewrite ?E; cbn in *;
      first [exact I | exact Hx | discriminate].
  - intros m. unfold push_readme.
    pose proof (retried_call_only HFFileError "Failed to upload content: " m) as H.
    unfold upload_file_content. destruct (retried_call _ _ m) as [[s|e] tr]; [exact I|].
    cbn in H. destruct H as [H|H]; [rewrite H; left; reflexivity|].
    revert H; destruct (exn_cls e) eqn:E; intros Hx; cbn; rewrite ?E; cbn in *;
      first [discriminate | right; exact Hx].
Qed.

(** ** How the error messages compose *)

(** When the upload of [push_readme] fails with an [Exception] [e] after
    its retries, the caller sees one [HFModelCardError] whose message
    carries both prefixes: "Failed to push README: Failed to upload
    content: " then [str(e)]. *)
Theorem push_readme_message m e tr :
  with_retry_default m = (Exc e, tr) -> is_Exception (exn_cls e) = true ->
  push_readme m
  = (Exc (mkExn (exn_id e) HFModelCardError
            ("Failed to push README: Failed to upload content: " ++ exn_msg e)), tr).
Proof.
  intros W He. unfold push_readme, upload_file_content, retried_call.
  rewrite W. cbn [wrap_errors]. rewrite He. reflexivity.
Qed.

Lemma push_readme_message_witness :
  push_readme (always_raise (http_error 7 500))
  = (Exc (mkExn 7 HFModelCardError
            "Failed to push README: Failed to upload content: HTTP error"),
     [Invoke; Sleep 1; Invoke; Sleep 2; Invoke]).
Proof.
  apply (push_readme_message _ (http_error 7 500) [Invoke; Sleep 1; Invoke; Sleep 2; Invoke]).
  - vm_compute. reflexivity.
  - reflexivity.
Defined.

(** When [add_collection_item] adds the item but the follow-up
    [get_collection] fails with an [Exception] [e], the error is wrapped
    twice: "Failed to add item: Failed to get collection: " then [str(e)],
    after exactly two API calls. *)
Theorem add_collection_item_message {B} m (g : operation B) slug e :
  m O = Ret slug -> g O = Exc e -> is_Exception (exn_cls e) = true ->
  add_collection_item m g
  = (Exc (mkExn (exn_id e) HFCollectionError
            ("Failed to add item: Failed to get collection: " ++ exn_msg e)), [Invoke; Invoke]).
Proof.
  intros Hm Hg He. unfold add_collection_item, get_collection, direct_call.
  rewrite Hm, Hg. cbn [wrap_errors]. rewrite He. cbn [wrap_errors exn_cls exn_id exn_msg].
  reflexivity.
Qed.

Lemma add_collection_item_message_witness :
  add_collection_item (fun _ => Ret "me/c-1") (always_raise (A:=nat) (http_error 4 404))
  = (Exc (mkExn 4 HFCollectionError
            "Failed to add item: Failed to get collection: HTTP error"), [Invoke; Invoke]).
Proof.
  apply (add_collection_item_message _ _ "me/c-1" (http_error 4 404)); reflexivity.
Defined.

(** When the [*_info] method matching [repo_type] raises
    [RepositoryNotFoundError] with no response or with a status below 500,
    [with_retry] does not retry it, and [get_repo_info] raises
    [HFRepoError("Repository not found: " + repo_id)] after one invocation:
    the message names the repo, not the original error. *)
Theorem get_repo_info_not_found repo_id repo_type (mi di si m : operation hub_repo) e st :
  repo_type_dispatch repo_type mi di si = Some m ->
  m O = Exc e -> exn_cls e = RepositoryNotFoundError st ->
  match st with Some status => (status < 500)%Z | None => True end ->
  get_repo_info repo_id repo_type mi di si
  = (Exc (mkExn (exn_id e) HFRepoError ("Repository not found: " ++ repo_id)), [Invoke]).
Proof.
  intros Hd Hm Hc Hs. unfold get_repo_info. rewrite Hd.
  assert (Hw : with_retry_default m = (Exc e, [Invoke])).
  { unfold with_retry_default, with_retry.
    replace (Z.to_nat 3) with 3%nat by reflexivity.
    cbn [retry_loop]. rewrite Hm.
    assert (Hnr : _is_retryable e = false).
    { unfold _is_retryable. rewrite Hc.
      destruct st as [status|]; [apply Z.leb_gt; exact Hs|reflexivity]. }
    rewrite Hnr. destruct (caught_by_with_retry e); reflexivity. }
  rewrite Hw. cbv beta iota. rewrite Hc. reflexivity.
Qed.

Lemma get_repo_info_not_found_witness :
  let e := mkExn 5 (RepositoryNotFoundError (Some 404%Z)) "404 Client Error" in
  get_repo_info "me/missing" "dataset" (fun _ => Ret (mkHubRepo "x" Absent Absent Absent Absent Absent Absent Absent))
    (always_raise e) (always_raise e)
  = (Exc (mkExn 5 HFRepoError ("Repository not found: " ++ "me/missing")), [Invoke]).
Proof.
  intros e.
  apply (get_repo_info_not_found _ _ _ _ _ (always_raise e) e (Some 404%Z));
    [reflexivity|reflexivity|reflexivity|vm_compute; reflexivity].
Defined.

(** ** Worker: further properties *)

(** An uncancelled worker whose operation returns [v] ends [run] having
    emitted exactly [finished(v)] and nothing else, with nothing escaping
    [run]; and that end state is reachable. *)
Theorem worker_success_emits_finished {A} (fn : operation A) (v : A) :
  fn O = Ret v ->
  reachable fn (mkW WDone false [SigFinished v] None)
  /\ (forall s, reachable fn s -> w_pc s = WDone -> w_cancelled s = false ->
                w_signals s = [SigFinished v] /\ w_escaped s = None).
Proof.
  intros Hv. split.
  - unfold reachable, w_init.
    eapply wsteps_step; [apply step_call|].
    eapply wsteps_step; [apply step_check|].
    rewrite Hv. cbn. apply wsteps_refl.
  - intros s Hr Hpc Hc.
    pose proof (reachable_done_uncancelled fn s Hr Hpc Hc) as Hrun.
    rewrite Hv in Hrun. cbn in Hrun. injection Hrun as Hs He. split; assumption.
Qed.

Lemma worker_success_emits_finished_witness :
  let fn : operation nat := fun _ => Ret 42%nat in
  reachable fn (mkW WDone false [SigFinished 42%nat] None)
  /\ (forall s, reachable fn s -> w_pc s = WDone -> w_cancelled s = false ->
                w_signals s = [SigFinished 42%nat] /\ w_escaped s = None).
Proof.
  intros fn. apply worker_success_emits_finished. reflexivity.
Defined.

(** When the operation raises an exception that is not an [Exception]
    ([KeyboardInterrupt], [SystemExit]), [run] emits no outcome signal at
    any point, whether or not [cancel] is called, and once [run] has ended
    that exception has escaped it. *)
Theorem worker_base_exception_escapes {A} (fn : operation A) (e : exn) :
  fn O = Exc e -> is_Exception (exn_cls e) = false ->
  forall s, reachable fn s ->
    w_signals s = [] /\ (w_pc s = WDone -> w_escaped s = Some e).
Proof.
  intros He Hb s Hr.
  set (P := fun s : wstate A =>
    w_signals s = [] /\
    match w_pc s with
    | WStart => w_escaped s = None
    | WReturned o => o = fn O /\ w_escaped s = None
    | WDone => w_escaped s = Some e
    end).
  assert (HP : P s).
  { apply (wsteps_invariant fn P) with (s1 := w_init); [|exact Hr|split; reflexivity].
    intros s1 s2 Hst [Hs Hpc]. inversion Hst; subst; cbn in *.
    - split; [exact Hs|]. split; [reflexivity|exact Hpc].
    - destruct Hpc as [-> _]. rewrite He. cbn. rewrite Hb. cbn.
      split; [rewrite app_nil_r; exact Hs|reflexivity].
    - split; [exact Hs|exact Hpc]. }
  destruct HP as [Hs Hpc]. split; [exact Hs|]. intros Hd. rewrite Hd in Hpc. exact Hpc.
Qed.

Lemma worker_base_exception_escapes_witness :
  let e := mkExn 1 (OtherBaseException "KeyboardInterrupt") "" in
  let fn : operation nat := fun _ => Exc e in
  let s : wstate nat := mkW WDone true [] (Some e) in
  reachable fn s /\ w_signals s = [] /\ (w_pc s = WDone -> w_escaped s = Some e).
Proof.
  intros e fn s.
  assert (Hr : reachable fn s).
  { unfold reachable, w_init, s.
    eapply wsteps_step; [apply step_call|].
    eapply wsteps_step; [apply step_cancel|].
    eapply wsteps_step; [apply step_check|]. cbn. apply wsteps_refl. }
  split; [exact Hr|]. exact (worker_base_exception_escapes fn e eq_refl eq_refl s Hr).
Defined.

(** ** Retry policy: outcome of a call *)

Lemma invocations_Invoke tr : invocations (Invoke :: tr) = S (invocations tr).
Proof. reflexivity. Qed.

Lemma invocations_Sleep w tr : invocations (Sleep w :: tr) = invocations tr.
Proof. reflexivity. Qed.

Lemma retry_loop_outcome {A} (fn : operation A) retries delay : forall fuel attempt last,
  let (r, tr) := retry_loop fn retries delay attempt fuel last in
  (invocations tr <= fuel)%nat /\
  match r with
  | Ret v => exists n, invocations tr = S n /\ fn (attempt + n)%nat = Ret v
             /\ forall i, (i < n)%nat ->
                  exists e, fn (attempt + i)%nat = Exc e /\ _is_retryable e = true
  | Exc e => (invocations tr = O /\ (last = Some e \/ (last = None /\ e = raise_none_error)))
             \/ (exists n, invocations tr = S n
                  /\ time_sleep (wait_value delay (Z.of_nat (attempt + n) + 1)) = SleepRaised e)
             \/ exists n, invocations tr = S n /\ fn (attempt + n)%nat = Exc e
  end.
Proof.
  induction fuel as [|fuel IH]; intros attempt last; cbn [retry_loop].
  - destruct last as [e|]; (split; [cbn; lia|]); left; split; auto.
  - destruct (fn attempt) as [v|e] eqn:Hf.
    + split; [cbn; lia|]. exists O. rewrite Nat.add_0_r.
      split; [reflexivity|]. split; [exact Hf|]. intros i Hi; lia.
    + assert (Hlast : forall tr', invocations tr' = 1%nat -> 
        (invocations tr' = O /\ (last = Some e \/ (last = None /\ e = raise_none_error)))
        \/ (exists n, invocations tr' = S n
             /\ time_sleep (wait_value delay (Z.of_nat (attempt + n) + 1)) = SleepRaised e)
        \/ exists n, invocations tr' = S n /\ fn (attempt + n)%nat = Exc e).
      { intros tr' Ht. right; right. exists O. rewrite Nat.add_0_r. split; [exact Ht|exact Hf]. }
      destruct (negb (caught_by_with_retry e)); [split; [cbn; lia|apply Hlast; reflexivity]|].
      destruct (negb (_is_retryable e)) eqn:Hre; [split; [cbn; lia|apply Hlast; reflexivity]|].
      apply negb_false_iff in Hre.
      assert (Hrec : forall r tr,
        (invocations tr <= fuel)%nat /\
        match r with
        | Ret v => exists n, invocations tr = S n /\ fn (S attempt + n)%nat = Ret v
                   /\ forall i, (i < n)%nat ->
                        exists e, fn (S attempt + i)%nat = Exc e /\ _is_retryable e = true
        | Exc e' => (invocations tr = O /\ (Some e = Some e' \/ (Some e = None /\ e' = raise_none_error)))
                   \/ (exists n, invocations tr = S n
                        /\ time_sleep (wait_value delay (Z.of_nat (S attempt + n) + 1)) = SleepRaised e')
                   \/ exists n, invocations tr = S n /\ fn (S attempt + n)%nat = Exc e'
        end ->
        (invocations (Invoke :: tr) <= S fuel)%nat /\
        match r with
        | Ret v => exists n, invocations (Invoke :: tr) = S n /\ fn (attempt + n)%nat = Ret v
                   /\ forall i, (i < n)%nat ->
                        exists e, fn (attempt + i)%nat = Exc e /\ _is_retryable e = true
        | Exc e' => (invocations (Invoke :: tr) = O /\ (last = Some e' \/ (last = None /\ e' = raise_none_error)))
                   \/ (exists n, invocations (Invoke :: tr) = S n
                        /\ time_sleep (wait_value delay (Z.of_nat (attempt + n) + 1)) = SleepRaised e')
                   \/ exists n, invocations (Invoke :: tr) = S n /\ fn (attempt + n)%nat = Exc e'
        end).
      { intros r tr [Hb Hr]. rewrite invocations_Invoke. split; [lia|].
        destruct r as [v|e'].
        - destruct Hr as (n & Hn & Hv & Hi). exists (S n). rewrite Hn.
          split; [reflexivity|]. split; [rewrite <- Hv; f_equal; lia|].
          intros i Hlt. destruct i as [|i].
          + exists e. rewrite Nat.add_0_r. split; assumption.
          + destruct (Hi i ltac:(lia)) as (e1 & He1 & Hr1). exists e1.
            rewrite <- He1. split; [f_equal; lia|exact Hr1].
        - destruct Hr as [(H0 & [Hs|[Hs _]])|[Hneg|(n & Hn & He')]].
          + injection Hs as <-. right; right. exists O. rewrite H0, Nat.add_0_r.
            split; [reflexivity|exact Hf].
          + discriminate.
          + destruct Hneg as (n & Hn & Hs). right; left. exists (S n). rewrite Hn.
            split; [reflexivity|].
            replace (Z.of_nat (attempt + S n)) with (Z.of_nat (S attempt + n)) by lia.
            exact Hs.
          + right; right. exists (S n). rewrite Hn. split; [reflexivity|].
            rewrite <- He'. f_equal; lia. }
      destruct (Z.of_nat attempt <? retries - 1)%Z.
      * destruct (time_sleep (wait_value delay (Z.of_nat attempt + 1))) as [w|e'] eqn:Hq.
        -- specialize (IH (S attempt) (Some e)).
           destruct (retry_loop fn retries delay (S attempt) fuel (Some e)) as [r tr].
           pose proof (Hrec r tr IH) as Hc. rewrite invocations_Invoke in Hc |- *.
           rewrite invocations_Sleep. exact Hc.
        -- split; [cbn; lia|]. right; left. exists O. rewrite Nat.add_0_r.
           split; [reflexivity|exact Hq].
      * specialize (IH (S attempt) (Some e)).
        destruct (retry_loop fn retries delay (S attempt) fuel (Some e)) as [r tr].
        exact (Hrec r tr IH).
Qed.

(** [with_retry] invokes [fn] at most [max(retries, 0)] times.  A value it
    returns is the value of its last invocation, every earlier invocation
    having raised a retryable error.  An exception it raises is the very
    exception raised by its last invocation, except in two cases: when
    [fn] was never invoked, it raises the [TypeError] of [raise None]; and
    when the [time.sleep] after the [(n+1)]-th invocation raises (a
    negative, NaN, infinite or too long wait [delay * (n+1)]), that
    exception escapes. *)
Theorem with_retry_outcome {A} (fn : operation A) retries delay :
  let (r, tr) := with_retry fn retries delay in
  (invocations tr <= Z.to_nat retries)%nat /\
  match r with
  | Ret v => exists n, invocations tr = S n /\ fn n = Ret v
             /\ forall i, (i < n)%nat -> exists e, fn i = Exc e /\ _is_retryable e = true
  | Exc e => (invocations tr = O /\ e = raise_none_error)
             \/ (exists n, invocations tr = S n
                  /\ time_sleep (wait_value delay (Z.of_nat n + 1)) = SleepRaised e)
             \/ exists n, invocations tr = S n /\ fn n = Exc e
  end.
Proof.
  unfold with_retry.
  pose proof (retry_loop_outcome fn retries delay (Z.to_nat retries) O None) as H.
  destruct (retry_loop fn retries delay O (Z.to_nat retries) None) as [[v|e] tr].
  all: destruct H as [Hb H]; split; [exact Hb|].
  - exact H.
  - destruct H as [(H0 & [Hs|[_ He]])|[Hneg|(n & Hn & He)]].
    + discriminate.
    + left. split; assumption.
    + right; left; exact Hneg.
    + right; right. exists n. split; assumption.
Qed.

(** ** The shared [HfApi] handle *)

(** After [login(token)] succeeds, the shared handle is the one [whoami]
    validated, built with the stripped token, and [get_api()] without a
    token returns that same handle. *)
Lemma get_api_some t s :
  get_api (Some t) s
  = (mkHandle (next_handle s) (if String.eqb t "" then None else Some t),
     mkAuth (Some (mkHandle (next_handle s) (if String.eqb t "" then None else Some t)))
       (S (next_handle s))).
Proof. unfold get_api. destruct (_api_instance s); reflexivity. Qed.

Theorem login_success_shares_handle token (m : handle -> outcome json) s info s' :
  login_st token m s = (Ret info, s') ->
  exists h payload, _api_instance s' = Some h /\ h_token h = Some (py_strip token)
            /\ m h = Ret payload /\ user_info_of payload = Ret info
            /\ get_api None s' = (h, s').
Proof.
  unfold login_st. destruct (String.eqb (py_strip token) "") eqn:E; [discriminate|].
  rewrite get_api_some, E.
  set (h := mkHandle (next_handle s) (Some (py_strip token))).
  destruct (m h) as [v|e] eqn:Hm; [|destruct (is_Exception (exn_cls e)); discriminate].
  destruct (user_info_of v) as [u|e] eqn:Hu; [|discriminate].
  intros H; injection H as <- <-. exists h, v. repeat split; assumption.
Qed.

Lemma login_success_shares_handle_witness :
  let payload := JDict [("name", JStr "alice"); ("orgs", JList [JDict [("name", JStr "acme")]])] in
  let m := fun h : handle => match h_token h with
                             | Some t => Ret payload
                             | None => Exc (mkExn 1 (HfHubHTTPError (Some 401%Z)) "401")
                             end in
  let info := mkUserInfo (JStr "alice") (JStr "") (JStr "") (JStr "") [JStr "acme"] in
  let s' := mkAuth (Some (mkHandle 0 (Some "hf_abc"))) 1 in
  login_st " hf_abc  " m (mkAuth None 0) = (Ret info, s')
  /\ exists h payload, _api_instance s' = Some h /\ h_token h = Some (py_strip " hf_abc  ")
               /\ m h = Ret payload /\ user_info_of payload = Ret info
               /\ get_api None s' = (h, s').
Proof.
  intros payload m info s'.
  assert (H : login_st " hf_abc  " m (mkAuth None 0) = (Ret info, s'))
    by (vm_compute; reflexivity).
  split; [exact H|]. exact (login_success_shares_handle _ _ _ _ _ H).
Defined.

(** How [login] fails.  A blank token raises [HFAuthError("Token cannot be
    empty.")] and leaves the shared handle untouched.  A token that
    [whoami] rejects with an [Exception] raises [HFAuthError("Login failed:
    ...")] and is dropped: the shared handle is reset, so the next
    [get_api()] builds a fresh handle without a token.  A whoami payload
    from which no [UserInfo] can be built, and an exception that is not an
    [Exception], escape as they are, and the handle built with the token
    stays the shared one. *)
Theorem login_failure_resets_handle token (m : handle -> outcome json) s :
  (py_strip token = "" ->
     login_st token m s = (Exc (mkExn 0 HFAuthError "Token cannot be empty."), s))
  /\ (forall e0, py_strip token <> "" ->
        m (mkHandle (next_handle s) (Some (py_strip token))) = Exc e0 ->
        is_Exception (exn_cls e0) = true ->
        login_st token m s
        = (Exc (mkExn (exn_id e0) HFAuthError ("Login failed: " ++ exn_msg e0)),
           mkAuth None (S (next_handle s))))
  /\ (forall e0, py_strip token <> "" ->
        m (mkHandle (next_handle s) (Some (py_strip token))) = Exc e0 ->
        is_Exception (exn_cls e0) = false ->
        login_st token m s
        = (Exc e0, mkAuth (Some (mkHandle (next_handle s) (Some (py_strip token))))
                     (S (next_handle s))))
  /\ (forall payload e, py_strip token <> "" ->
        m (mkHandle (next_handle s) (Some (py_strip token))) = Ret payload ->
        user_info_of payload = Exc e ->
        login_st token m s
        = (Exc e, mkAuth (Some (mkHandle (next_handle s) (Some (py_strip token))))
                    (S (next_handle s)))).
Proof.
  unfold login_st. split; [|split; [|split]].
  - intros H. rewrite H. reflexivity.
  - intros e0 Hne Hm Hx. rewrite (proj2 (String.eqb_neq _ _) Hne), get_api_some.
    rewrite (proj2 (String.eqb_neq _ _) Hne), Hm, Hx. reflexivity.
  - intros e0 Hne Hm Hx. rewrite (proj2 (String.eqb_neq _ _) Hne), get_api_some.
    rewrite (proj2 (String.eqb_neq _ _) Hne), Hm, Hx. reflexivity.
  - intros payload e Hne Hm Hu. rewrite (proj2 (String.eqb_neq _ _) Hne), get_api_some.
    rewrite (proj2 (String.eqb_neq _ _) Hne), Hm, Hu. reflexivity.
Qed.

Lemma login_failure_resets_handle_witness :
  let e0 := mkExn 1 (HfHubHTTPError (Some 401%Z)) "401" in
  let s := mkAuth (Some (mkHandle 2 (Some "hf_old"))) 3 in
  login_st "hf_bad" (fun _ => Exc e0) s
  = (Exc (mkExn 1 HFAuthError ("Login failed: " ++ "401")), mkAuth None 4)
  /\ login_st "hf_ok" (fun _ => Ret (JStr "oops")) s
     = (Exc (mkExn 0 (OtherException "AttributeError")
               ("'" ++ "str" ++ "' object has no attribute 'get'")),
        mkAuth (Some (mkHandle 3 (Some "hf_ok"))) 4).
Proof.
  intros e0 s. split.
  - destruct (login_failure_resets_handle "hf_bad" (fun _ => Exc e0) s) as [_ [H _]].
    apply (H e0); [vm_compute; discriminate|reflexivity|reflexivity].
  - destruct (login_failure_resets_handle "hf_ok" (fun _ => Ret (JStr "oops")) s)
      as [_ [_ [_ H]]].
    apply (H (JStr "oops")); [vm_compute; discriminate|reflexivity|reflexivity].
Defined.

(** Unlike [login], [whoami(token)] with a token installs a new shared
    handle built with that token (none for the empty string) whatever the
    outcome of the call, a rejected token included. *)
Theorem whoami_installs_token t (m : handle -> outcome json) s :
  exists h, _api_instance (snd (whoami_st (Some t) m s)) = Some h
            /\ h_id h = next_handle s
            /\ h_token h = (if String.eqb t "" then None else Some t).
Proof.
  unfold whoami_st. rewrite get_api_some.
  set (h := mkHandle (next_handle s) (if String.eqb t "" then None else Some t)).
  exists h.
  destruct (obind (m h) user_info_of) as [v|e]; [|destruct (is_Exception (exn_cls e))];
    cbn; auto.
Qed.
